(** * bytelatent/eval.py: evaluation harness adapter and perplexity driver

    A shallow embedding of [src/bytelatent/eval.py].  Python exceptions are
    an explicit [Result]; the attributes of the generator object that the
    adapter assigns are a record threaded through a state-and-error monad;
    dictionaries are [gmap]s; Python floats and torch reductions are the
    operations of an abstract interface [FloatOps]. *)

From Stdlib Require Import ZArith Ascii String List Lia.
From stdpp Require Import base decidable option list gmap fin_maps strings.

Set Warnings "-register-all".

Local Open Scope string_scope.
Local Open Scope list_scope.
Local Open Scope stdpp_scope.
Local Open Scope Z_scope.

(** ** Exceptions *)

(** The exception classes that the modelled code can raise itself, and
    [RuntimeError] for whatever a collaborator (the generator) raises. *)
Inductive exn : Type :=
  | AssertionError
  | NotImplementedError
  | NameError
  | ValueError
  | TypeError
  | IndexError
  | ZeroDivisionError
  | OverflowError
  | RuntimeError (msg : string).

Inductive Result (A : Type) : Type :=
  | Ok (a : A)
  | Raise (e : exn).
Arguments Ok {A} a.
Arguments Raise {A} e.

Definition rbind {A B} (r : Result A) (k : A → Result B) : Result B :=
  match r with
  | Ok a => k a
  | Raise e => Raise e
  end.

Definition is_Ok {A} (r : Result A) : bool :=
  match r with Ok _ => true | Raise _ => false end.

(** ** Python strings *)

(** [s.replace(old, "")]: every occurrence of [old] met in a left-to-right
    scan is dropped, the scan resuming after the dropped occurrence.  When
    [old] is empty, CPython inserts the (empty) replacement between the
    characters, which gives [s] back. *)
Fixpoint replace_scan (old : string) (skip : nat) (s : string) : string :=
  match s with
  | EmptyString => EmptyString
  | String c s' =>
      match skip with
      | S k => replace_scan old k s'
      | O =>
          if String.prefix old s
          then replace_scan old (Nat.pred (String.length old)) s'
          else String c (replace_scan old 0 s')
      end
  end.

Definition str_replace_del (s old : string) : string :=
  match old with
  | EmptyString => s
  | String _ _ => replace_scan old 0 s
  end.

(** [scan_deleted e s s']: [s'] is [s] without the occurrences of the
    non-empty [e] that a left-to-right scan meets, the scan resuming after
    each occurrence it drops. *)
Inductive scan_deleted (e : string) : string → string → Prop :=
  | scan_end : scan_deleted e EmptyString EmptyString
  | scan_drop r r' :
      scan_deleted e r r' → scan_deleted e (e +:+ r) r'
  | scan_keep c r r' :
      String.prefix e (String c r) = false →
      scan_deleted e r r' → scan_deleted e (String c r) (String c r').

(** One pass of a stop string [e] over [g], as [str.replace] does it. *)
Definition removed_by_scan (e g g' : string) : Prop :=
  match e with
  | EmptyString => g' = g
  | String _ _ => scan_deleted e g g'
  end.

(** One pass of a stop string [e] over [g] that deletes at most one
    occurrence of [e]. *)
Definition removed_at_most_once (e g g' : string) : Prop :=
  g' = g ∨ ∃ a b, g = a +:+ e +:+ b ∧ g' = a +:+ b.

(** The passes of the stop strings, in the order supplied. *)
Inductive stops_applied (R : string → string → string → Prop)
  : list string → string → string → Prop :=
  | stops_nil g : stops_applied R [] g g
  | stops_cons e es g g1 g2 :
      R e g g1 → stops_applied R es g1 g2 → stops_applied R (e :: es) g g2.

(** Iterating over a [str] yields its characters as one-character strings. *)
Fixpoint str_chars (s : string) : list string :=
  match s with
  | EmptyString => []
  | String c s' => String c EmptyString :: str_chars s'
  end.

(** [posixpath.join(a, b)] and [posixpath.basename(p)] of the Python
    standard library, for two arguments. *)
Definition ends_with_sep (s : string) : bool :=
  match rev (list_ascii_of_string s) with
  | c :: _ => bool_decide (c = "/"%char)
  | [] => false
  end.

Definition path_join (a b : string) : string :=
  if String.prefix "/" b then b
  else if bool_decide (a = "") || ends_with_sep a then a +:+ b
  else a +:+ "/" +:+ b.

Fixpoint basename_go (acc s : string) : string :=
  match s with
  | EmptyString => acc
  | String c s' =>
      if bool_decide (c = "/"%char) then basename_go s' s' else basename_go acc s'
  end.

Definition basename (p : string) : string := basename_go p p.

(** ** Floats and tensors *)

(** Python floats with the operations the module uses.  [math_exp] is
    [math.exp], [None] standing for its [OverflowError]; [tsum] is
    [Tensor.sum().item()] on a one-dimensional float tensor. *)
Class FloatOps (F : Type) : Type := {
  float_eq_dec :: EqDecision F;
  fzero : F;
  fadd : F → F → F;
  fdiv : F → F → F;
  of_int : Z → F;
  math_exp : F → option F;
  tsum : list F → F;
}.

Section Eval.

Context {F : Type} `{FloatOps F}.

(** Python numbers: [sum] and [/] in [eval_on_val] mix ints and floats. *)
Inductive Num : Type :=
  | NInt (n : Z)
  | NFloat (x : F).

Definition to_float (a : Num) : F :=
  match a with NInt n => of_int n | NFloat x => x end.

Definition num_add (a b : Num) : Num :=
  match a, b with
  | NInt x, NInt y => NInt (x + y)
  | _, _ => NFloat (fadd (to_float a) (to_float b))
  end.

(** [a / n] for an int [n]. *)
Definition truediv_int (a : Num) (n : Z) : Result Num :=
  if n =? 0 then Raise ZeroDivisionError
  else Ok (NFloat (fdiv (to_float a) (of_int n))).

(** Built-in [sum(l)], which starts from the int [0]. *)
Definition py_sum (l : list Num) : Num := fold_left num_add l (NInt 0).

(** Values returned to the harness. *)
Inductive PyObj : Type :=
  | PyFloat (x : F)
  | PyBool (b : bool)
  | PyTuple (items : list PyObj).

(** ** Generation arguments *)

(** Values found in a request's generation-argument dict.  [VNum] stands
    for an int, a float or a bool: Python's [==] compares these by numeric
    value ([1 == 1.0 == True]), so that dict equality [d == first_dict] is
    equality of the maps (NaN aside). *)
Inductive Value : Type :=
  | VNone
  | VNum (x : F)
  | VStr (s : string)
  | VList (l : list string).

#[export] Instance Value_eq_dec : EqDecision Value.
Proof. solve_decision. Defined.

Definition all_dicts_same (dict_list : list (gmap string Value)) : bool :=
  match dict_list with
  | [] => true
  | first_dict :: _ => forallb (fun d => bool_decide (d = first_dict)) dict_list
  end.

(** [d.get(k, dflt)] *)
Definition dict_get (d : gmap string Value) (k : string) (dflt : Value) : Value :=
  default dflt (d !! k).

(** ** The generator object *)

(** The attributes of the generator that the adapter reads and assigns. *)
Record Generator : Type := {
  temperature : Value;
  top_p : Value;
  top_k : Value;
  until : Value;
  max_gen_len : Z;
}.

Definition set_sampling (t p k u : Value) (g : Generator) : Generator :=
  {| temperature := t; top_p := p; top_k := k; until := u;
     max_gen_len := max_gen_len g |}.

Definition set_max_gen_len (n : Z) (g : Generator) : Generator :=
  {| temperature := temperature g; top_p := top_p g; top_k := top_k g;
     until := until g; max_gen_len := n |}.

(** What [generate] returns: the generations, and per input a tensor of
    per-position log-likelihoods and a tensor of greedy-match flags. *)
Definition GenOut : Type := (list string * list (list F) * list (list bool))%type.

(** A recorded call of [generator.generate]: the attributes at the time of
    the call and the inputs. *)
Record Call : Type := { call_config : Generator; call_inputs : list string }.

Record World : Type := { generator : Generator; calls : list Call }.

(** State and exceptions: a computation maps the state before to the state
    after and either a value or the exception raised; the state reached
    when an exception is raised is kept. *)
Definition ST (S A : Type) : Type := S → S * Result A.

Definition ret {S A} (a : A) : ST S A := fun w => (w, Ok a).
Definition raise {S A} (e : exn) : ST S A := fun w => (w, Raise e).
Definition bind {S A B} (m : ST S A) (k : A → ST S B) : ST S B :=
  fun w => match m w with
           | (w', Ok a) => k a w'
           | (w', Raise e) => (w', Raise e)
           end.
Definition lift {S A} (r : Result A) : ST S A := fun w => (w, r).

Definition M (A : Type) : Type := ST World A.
Definition get_generator : M Generator := fun w => (w, Ok (generator w)).
Definition put_generator (g : Generator) : M unit :=
  fun w => ({| generator := g; calls := calls w |}, Ok tt).

Notation "'do' x <~ c 'in' k" := (bind c (fun x => k))
  (at level 10, x pattern, c at level 100, k at level 200).

(** ** EvalHarnessLM *)

(** [self.generator.generate], a collaborator: it reads the generator's
    attributes and the inputs, and returns or raises.  It does not assign
    the sampling attributes (they are owned by the adapter). *)
Variable generate_fn : Generator → list string → Result GenOut.

(** [self.generator.tokenizer.encode(p, add_bos=False, add_eos=False)] *)
Variable tokenizer_encode : string → list Z.

Definition generate (inputs : list string) : M GenOut :=
  fun w =>
    ({| generator := generator w;
        calls := calls w ++ [{| call_config := generator w; call_inputs := inputs |}] |},
     generate_fn (generator w) inputs).

(** [for e in until]: a list yields its items, a [str] its characters,
    anything else is not iterable. *)
Definition iter_until (v : Value) : Result (list string) :=
  match v with
  | VList l => Ok l
  | VStr s => Ok (str_chars s)
  | _ => Raise TypeError
  end.

(** The inner loop of lines 100-101. *)
Definition strip_stops (stops : list string) (g : string) : string :=
  fold_left str_replace_del stops g.

(** The loop of lines 98-102; [until] is only iterated when there is a
    generation to filter. *)
Definition filter_generations (u : Value) (generations : list string)
  : Result (list string) :=
  match generations with
  | [] => Ok []
  | _ :: _ => rbind (iter_until u) (fun stops => Ok (strip_stops stops <$> generations))
  end.

(** Lines 88-96: the four sampling attributes are read from the shared
    dict, with their defaults, and assigned to the generator. *)
Definition copy_gen_args (gen_args : gmap string Value) (g : Generator) : Generator :=
  let t := dict_get gen_args "temperature" (VNum fzero) in
  let p := dict_get gen_args "top_p" VNone in
  let k := dict_get gen_args "top_k" VNone in
  let u := dict_get gen_args "until" (VList []) in
  set_sampling t p k u g.

(** A [generate_until] request is [req.args = (prompt, gen_args)].
    Unpacking the transposed argument list into two names raises
    [ValueError] on an empty request list. *)
Definition generate_until (requests : list (string * gmap string Value))
  : M (list string) :=
  match requests with
  | [] => raise ValueError
  | _ :: _ =>
      let prompts := requests.*1 in
      let gen_args := requests.*2 in
      if all_dicts_same gen_args then
        let gen_args0 := hd ∅ gen_args in
        let u := dict_get gen_args0 "until" (VList []) in
        do g <~ get_generator in
        do _ <~ put_generator (copy_gen_args gen_args0 g) in
        do (generations, _, _) <~ generate prompts in
        lift (filter_generations u generations)
      else raise AssertionError
  end.

(** [t.all().item()] on a one-dimensional bool tensor. *)
Definition tensor_all (t : list bool) : bool := forallb id t.

(** One iteration of the loop of lines 113-117; [t[p_len:]] is [drop]. *)
Definition ll_result (p : string) (ll : list F) (gr : list bool) : PyObj :=
  let p_len := length (tokenizer_encode p) in
  PyTuple [PyFloat (tsum (drop p_len ll)); PyBool (tensor_all (drop p_len gr))].

(** A [loglikelihood] request is [req.args = (context, continuation)]. *)
Definition loglikelihood (requests : list (string * string)) : M (list PyObj) :=
  match requests with
  | [] => raise ValueError
  | _ :: _ =>
      let prompts := requests.*1 in
      let inputs := (fun req => req.1 +:+ req.2) <$> requests in
      do g <~ get_generator in
      let saved := max_gen_len g in
      do _ <~ put_generator (set_max_gen_len 1 g) in
      do (_, lls, greedy) <~ generate inputs in
      let results :=
        (fun '(p, ll, gr) => ll_result p ll gr) <$> zip (zip prompts lls) greedy in
      do g' <~ get_generator in
      do _ <~ put_generator (set_max_gen_len saved g') in
      ret results
  end.

(** A [loglikelihood_rolling] request is [req.args = (text,)]; the list
    holds each request's [req.args[0]]. *)
Definition loglikelihood_rolling (requests : list string) : M (list PyObj) :=
  let prompts := requests in
  do g <~ get_generator in
  let saved := max_gen_len g in
  do _ <~ put_generator (set_max_gen_len 1 g) in
  do (_, lls, _) <~ generate prompts in
  let results := (fun ll => PyTuple [PyFloat (tsum ll)]) <$> lls in
  do g' <~ get_generator in
  do _ <~ put_generator (set_max_gen_len saved g') in
  ret results.

(** ** eval_ppl_on_path *)

(** Argument records of [bytelatent.args] and the iterator modules, with
    the fields this module reads or passes. *)
Record TokenizerArgs : Type := { tokenizer_name : string }.
Record PatcherArgs : Type := { patching_mode : string }.

(** The document iterators, as the constructor calls that build them. *)
Inductive DocIterator : Type :=
  | ArrowFileIterator (file_path : option string)
      (dataset_files : option (list string))
      (arrow_batch_size : Z) (s3_profile : option string)
  | LimitIterator (inner : DocIterator) (limit : Z).

Record PreprocessIterator : Type := {
  pre_source : DocIterator;
  pre_patcher_args : PatcherArgs;
  pre_tokenizer_args : TokenizerArgs;
  pre_add_patches : bool;
}.

Record SequenceIterator : Type := {
  seq_source : PreprocessIterator;
  output_seq_len : Z;
  buffer_size : Z;
}.

Record PackingArgs : Type := {
  pk_batch_size : Z;
  pk_seq_len : Z;
  pk_max_length : Z;
  pk_tokenizer_name : string;
  pk_pad_to_max_length : bool;
  pk_enable_byte_ngrams : bool;
  pk_pad_id : Z;
}.

Record PackingIterator : Type := {
  pack_source : SequenceIterator;
  packing_args : PackingArgs;
}.

(** A batch: integer arrays [x] and [y], and an optional boolean mask. *)
Record Batch : Type := {
  batch_x : list (list Z);
  batch_y : list (list Z);
  batch_mask : option (list (list bool));
}.

(** [y.numel()] and [mask.sum().item()] *)
Definition numel {A} (t : list (list A)) : Z := Z.of_nat (length (concat t)).
Definition mask_sum (m : list (list bool)) : Z :=
  Z.of_nat (length (filter (fun b => b = true) (concat m))).

(** The returned mapping [{"n_bytes": .., "loss_sum": .., "ppl": ..}]. *)
Record PplResult : Type := { n_bytes : Z; loss_sum : F; ppl : F }.

(** Collaborators of [eval_ppl_on_path]. *)
Context {Model Logits : Type}.
Variable get_output_seq_len : Model → Z.
Variable model_forward : Model → list (list Z) → Logits.
(** [F.cross_entropy(pred.flatten(0, 1), y.flatten(0, 1), reduction="sum").item()] *)
Variable cross_entropy_sum : Logits → list (list Z) → F.
(** [tokenizer_args.build().boe_id] *)
Variable boe_id : TokenizerArgs → Z.
(** [find_and_sanitize_chunks(path, world_size=.., file_pattern=.., s3_profile=..)] *)
Variable find_and_sanitize_chunks : string → Z → string → option string → list string.
(** [packing_iterator.create_iter()], the batches it yields *)
Variable create_iter : PackingIterator → list Batch.

Definition supported_tokenizer (name : string) : bool :=
  bool_decide (name ∈ ["bytes"; "blt"]).

(** The body of the loop of lines 203-213 on the accumulators
    [(total_loss, n_bytes)]. *)
Definition loss_step (model : Model) (name : string) (batch : Batch)
  : ST (F * Z) unit :=
  fun '(total_loss, nb) =>
    if supported_tokenizer name then
      let nb' :=
        nb + match batch_mask batch with
             | None => numel (batch_y batch)
             | Some mask => mask_sum mask
             end in
      let pred := model_forward model (batch_x batch) in
      let loss := cross_entropy_sum pred (batch_y batch) in
      ((fadd total_loss loss, nb'), Ok tt)
    else ((total_loss, nb), Raise NotImplementedError).

Fixpoint loss_loop (model : Model) (name : string) (batches : list Batch)
  : ST (F * Z) unit :=
  match batches with
  | [] => ret tt
  | batch :: rest =>
      do _ <~ loss_step model name batch in
      loss_loop model name rest
  end.

(** Line 217 *)
Definition perplexity (total_loss : F) (nb : Z) : Result F :=
  if 0 <? nb then
    match math_exp (fdiv total_loss (of_int nb)) with
    | Some v => Ok v
    | None => Raise OverflowError
    end
  else Ok fzero.

Definition ppl_pipeline (model : Model) (tokenizer_args : TokenizerArgs)
    (patcher_args : PatcherArgs) (add_patches : bool) (chunk : string)
    (batch_size arrow_batch_size : Z) (max_n_docs : option Z)
    (s3_profile : option string) : PackingIterator :=
  let seq_len := get_output_seq_len model in
  let arrow_iterator :=
    ArrowFileIterator (Some chunk) None arrow_batch_size s3_profile in
  let arrow_iterator :=
    match max_n_docs with
    | Some n => LimitIterator arrow_iterator n
    | None => arrow_iterator
    end in
  let preprocess_iterator :=
    {| pre_source := arrow_iterator; pre_patcher_args := patcher_args;
       pre_tokenizer_args := tokenizer_args; pre_add_patches := add_patches |} in
  let sequence_iterator :=
    {| seq_source := preprocess_iterator; output_seq_len := seq_len;
       buffer_size := 1 |} in
  {| pack_source := sequence_iterator;
     packing_args :=
       {| pk_batch_size := batch_size; pk_seq_len := seq_len;
          pk_max_length := seq_len;
          pk_tokenizer_name := tokenizer_name tokenizer_args;
          pk_pad_to_max_length := true; pk_enable_byte_ngrams := false;
          pk_pad_id := if bool_decide (tokenizer_name tokenizer_args = "bytes")
                       then 0 else boe_id tokenizer_args |} |}.

Definition eval_ppl_on_path (model : Model) (tokenizer_args : TokenizerArgs)
    (patcher_args : PatcherArgs) (add_patches : bool) (path : string)
    (batch_size arrow_batch_size : Z) (max_n_docs : option Z)
    (s3_profile : option string) : Result PplResult :=
  let chunks := find_and_sanitize_chunks path 1 "*.val.jsonl" s3_profile in
  if bool_decide (length chunks = 1%nat) then
    match chunks with
    | [] => Raise IndexError
    | chunk :: _ =>
        let packing_iterator :=
          ppl_pipeline model tokenizer_args patcher_args add_patches chunk
            batch_size arrow_batch_size max_n_docs s3_profile in
        match loss_loop model (tokenizer_name tokenizer_args)
                (create_iter packing_iterator) (fzero, 0) with
        | (_, Raise e) => Raise e
        | ((total_loss, nb), Ok _) =>
            rbind (perplexity total_loss nb) (fun v =>
              Ok {| n_bytes := nb; loss_sum := total_loss; ppl := v |})
        end
    end
  else Raise AssertionError.

(** ** eval_on_val *)

Record ValidationArgs : Type := {
  max_n_docs : option Z;
  val_sources : list string;
  val_root_dir : string;
}.

(** [train_cfg.data]; [data_sources] lists the keys of the [sources]
    mapping in iteration order. *)
Record DataArgs : Type := {
  data_sources : list string;
  data_root_dir : string;
  data_s3_profile : option string;
  data_arrow_batch_size : Z;
  data_tokenizer_args : TokenizerArgs;
}.

Record TrainArgs : Type := { data : DataArgs }.

(** The texts of the examples that [iterator.create_iter()] yields. *)
Variable arrow_texts : DocIterator → list string.
(** [dist_mean_dict(metrics)] *)
Variable dist_mean_dict : gmap string Num → gmap string Num.

(** [d[k] = v] on a dict whose iteration order matters: an existing key
    keeps its position, a new key goes last. *)
Fixpoint dict_set {V} (k : string) (v : V) (d : list (string * V))
  : list (string * V) :=
  match d with
  | [] => [(k, v)]
  | (k', v') :: d' =>
      if bool_decide (k' = k) then (k, v) :: d' else (k', v') :: dict_set k v d'
  end.

(** The iterator of lines 243-253. *)
Definition val_iterator (train_cfg : TrainArgs) (chunk : string) : DocIterator :=
  ArrowFileIterator None (Some [chunk])
    (data_arrow_batch_size (data train_cfg))
    (data_s3_profile (data train_cfg)).

(** The loop of lines 232-254. *)
Fixpoint build_path_to_iter (train_cfg : TrainArgs) (srcs : list string)
    (path_to_iter : list (string * DocIterator))
  : Result (list (string * DocIterator)) :=
  match srcs with
  | [] => Ok path_to_iter
  | path :: rest =>
      let chunks :=
        find_and_sanitize_chunks path 1 "*.val.jsonl"
          (data_s3_profile (data train_cfg)) in
      if bool_decide (length chunks = 1%nat) then
        match chunks with
        | [] => Raise IndexError
        | chunk :: _ =>
            let iterator := val_iterator train_cfg chunk in
            build_path_to_iter train_cfg rest (dict_set path iterator path_to_iter)
        end
      else Raise AssertionError
  end.

(** [metrics[k].append(v)] on a [defaultdict(list)] *)
Definition metric_append (k : string) (v : Num) (metrics : gmap string (list Num))
  : gmap string (list Num) :=
  <[k := default [] (metrics !! k) ++ [v]]> metrics.

(** The loop of lines 271-277, from index [i] on. *)
Fixpoint metrics_loop (texts : list string) (i : nat) (lls : list (list F))
    (metrics : gmap string (list Num)) : Result (gmap string (list Num)) :=
  match lls with
  | [] => Ok metrics
  | ll :: rest =>
      let tmp := NFloat (tsum ll) in
      let metrics := metric_append "nll" tmp metrics in
      rbind (truediv_int tmp (Z.of_nat (length ll))) (fun per_token =>
      let metrics := metric_append "nll_per_token" per_token metrics in
      match texts !! i with
      | None => Raise IndexError
      | Some text =>
          rbind (truediv_int tmp (Z.of_nat (String.length text))) (fun per_char =>
          let metrics := metric_append "nll_per_char" per_char metrics in
          let metrics :=
            metric_append "avg_seqlen" (NInt (Z.of_nat (length ll))) metrics in
          metrics_loop texts (S i) rest metrics)
      end)
  end.

(** The loop of lines 279-280. *)
Definition metrics_mean (metrics : gmap string (list Num))
  : Result (gmap string Num) :=
  map_fold (fun m l acc =>
              rbind acc (fun means =>
              rbind (truediv_int (py_sum l) (Z.of_nat (length l))) (fun v =>
              Ok (<[m := v]> means))))
           (Ok ∅) metrics.

(** Lines 270-281: the metrics of one source from its texts and their
    log-likelihoods; [metrics.update(d)] lets the entries of [d] win. *)
Definition val_metrics (texts : list string) (loglikelihood : list (list F))
  : Result (gmap string Num) :=
  rbind (metrics_loop texts 0 loglikelihood ∅) (fun metrics =>
  rbind (metrics_mean metrics) (fun metrics =>
  Ok (dist_mean_dict metrics ∪ metrics))).

(** Lines 262-282 for one source. *)
Definition source_metrics (iterator : DocIterator) : M (gmap string Num) :=
  let texts := arrow_texts iterator in
  do (_, loglikelihood, _) <~ generate texts in
  lift (val_metrics texts loglikelihood).

(** The metrics of one source under the generator attributes [cfg]. *)
Definition source_result (cfg : Generator) (iterator : DocIterator)
  : Result (gmap string Num) :=
  let texts := arrow_texts iterator in
  rbind (generate_fn cfg texts) (fun out => val_metrics texts out.1.2).

(** The keys under which lines 284-290 can store the metrics of [src]. *)
Definition writes_key (src k : string) : Prop :=
  k = basename src ∨ k = basename src +:+ "_1".

(** Lines 284-290. *)
Definition store_metrics (src : string) (metrics : gmap string Num)
    (all_val_metrics : gmap string (gmap string Num))
  : gmap string (gmap string Num) :=
  let name := basename src in
  let name :=
    if bool_decide (is_Some (all_val_metrics !! name)) then name +:+ "_1"
    else name in
  <[name := metrics]> all_val_metrics.

(** The loop of lines 261-290. *)
Fixpoint val_loop (path_to_iter : list (string * DocIterator))
    (all_val_metrics : gmap string (gmap string Num))
  : M (gmap string (gmap string Num)) :=
  match path_to_iter with
  | [] => ret all_val_metrics
  | (src, iterator) :: rest =>
      do metrics <~ source_metrics iterator in
      val_loop rest (store_metrics src metrics all_val_metrics)
  end.

Definition val_srcs (val_args : ValidationArgs) (train_cfg : TrainArgs)
  : list string :=
  (path_join (val_root_dir val_args) <$> val_sources val_args)
  ++ (path_join (data_root_dir (data train_cfg)) <$> data_sources (data train_cfg)).

Definition eval_on_val (val_args : ValidationArgs) (train_cfg : TrainArgs)
  : M (gmap string (gmap string Num)) :=
  let srcs := val_srcs val_args train_cfg in
  do path_to_iter <~ lift (build_path_to_iter train_cfg srcs []) in
  do g <~ get_generator in
  let saved := max_gen_len g in
  do _ <~ put_generator (set_max_gen_len 1 g) in
  do all_val_metrics <~ val_loop path_to_iter ∅ in
  do g' <~ get_generator in
  do _ <~ put_generator (set_max_gen_len saved g') in
  ret all_val_metrics.

(** ** launch_eval *)

Context {Tokenizer GeneratorArgs : Type}.
(** [PackedCausalTransformerGenerator(eval_args.generator, model, tokenizer)] *)
Variable new_generator : GeneratorArgs → Model → Tokenizer → Generator.
(** [bytelatent.checkpoint.CONSOLIDATE_FOLDER] *)
Variable CONSOLIDATE_FOLDER : string.

Record EvalArgs : Type := {
  ckpt_dir : string;
  dump_dir : string;
  s3_profile : option string;
  generator_args : GeneratorArgs;
  validation : option ValidationArgs;
  metric_log_dir : option string;
  global_step : option Z;
}.

(** What the driver observes of the process and the file system. *)
Record Env : Type := {
  dist_is_initialized : bool;
  fs_exists : string → bool;
  fs_glob : string → list string;
  get_global_rank : Z;
  consolidate_checkpoints : string → string;
  load_consolidated_model_and_tokenizer : string → Model * Tokenizer * TrainArgs;
}.

(** The effects of the driver, in the order they happen. *)
Inductive Event : Type :=
  | SetupTorchDistributed
  | ConsolidateCheckpoints (dir : string)
  | Mkdirs (dir : string)
  | WriteConfig (path : string)
  | Barrier
  | LoadModel (path : string)
  | PrintResults (r : PplResult)
  | NewGenerator
  | NewHarness
  | RunEvalOnVal
  | WriteResults (path : string)
  | WriteValidation (path : string).

(** The events of the harness path: the construction of the generator and
    of its adapter, the [eval_on_val] call and the persistence of results. *)
Definition is_harness_event (ev : Event) : bool :=
  match ev with
  | NewGenerator | NewHarness | RunEvalOnVal | WriteResults _ | WriteValidation _ => true
  | _ => false
  end.

Definition emit (ev : Event) : ST (list Event) unit :=
  fun tr => (tr ++ [ev], Ok tt).

(** Truth value of an optional string: [None] and [""] are false. *)
Definition truthy_str (o : option string) : bool :=
  match o with
  | Some s => negb (bool_decide (s = ""))
  | None => false
  end.

(** Lines 298-342: everything up to the [raise]. *)
Definition launch_eval_head (env : Env) (eval_args : EvalArgs)
  : ST (list Event) (Model * Tokenizer * TrainArgs) :=
  do _ <~ (if dist_is_initialized env then ret tt else emit SetupTorchDistributed) in
  let ckpt := ckpt_dir eval_args in
  do consolidate_path <~
    (if fs_exists env ckpt
        && fs_exists env (path_join ckpt "params.json")
        && negb (bool_decide (length (fs_glob env (path_join ckpt "*.pth")) = 0%nat))
     then ret ckpt
     else
       let consolidate_path := path_join ckpt CONSOLIDATE_FOLDER in
       if negb (fs_exists env consolidate_path) && (get_global_rank env =? 0)
       then do _ <~ emit (ConsolidateCheckpoints ckpt) in
            ret (consolidate_checkpoints env ckpt)
       else ret consolidate_path) in
  do _ <~ emit (Mkdirs (dump_dir eval_args)) in
  do _ <~ emit (WriteConfig (path_join (dump_dir eval_args) "config.yaml")) in
  do _ <~ emit Barrier in
  do _ <~ emit (LoadModel consolidate_path) in
  let '(model, tokenizer, train_cfg) :=
    load_consolidated_model_and_tokenizer env consolidate_path in
  do _ <~ match validation eval_args with
          | Some v =>
              do val_results <~
                lift (eval_ppl_on_path model
                        (data_tokenizer_args (data train_cfg))
                        {| patching_mode := "byte" |} false
                        "/checkpoint/amaia/explore/datasets/dclm_baseline_1.0/"
                        8 100 (max_n_docs v) (Some "blt")) in
              emit (PrintResults val_results)
          | None => ret tt
          end in
  ret (model, tokenizer, train_cfg).

(** Lines 346-391: everything after the [raise]. *)
Definition launch_eval_tail (env : Env) (eval_args : EvalArgs)
    (model : Model) (tokenizer : Tokenizer) (train_cfg : TrainArgs)
  : ST (list Event) unit :=
  let gen := new_generator (generator_args eval_args) model tokenizer in
  do _ <~ emit NewGenerator in
  do _ <~ emit NewHarness in
  do val_results <~
    match validation eval_args with
    | Some v =>
        do _ <~ emit RunEvalOnVal in
        do r <~ lift (snd (eval_on_val v train_cfg {| generator := gen; calls := [] |})) in
        ret (Some r)
    | None => ret None
    end in
  do _ <~
    (if get_global_rank env =? 0 then
       do _ <~ emit (WriteResults (path_join (dump_dir eval_args) "results.json")) in
       match val_results with
       | Some _ => emit (WriteValidation (path_join (dump_dir eval_args) "validation.json"))
       | None => ret tt
       end
     else ret tt) in
  (* [timestamp | results["results"]] is a dict or-ed with a list *)
  if truthy_str (metric_log_dir eval_args) && (get_global_rank env =? 0)
  then raise TypeError
  else ret tt.

(** [NotImplementedException] is bound by no import, assignment or
    built-in: evaluating the operand of the [raise] on line 344 raises
    [NameError]. *)
Definition launch_eval (env : Env) (eval_args : EvalArgs) : ST (list Event) unit :=
  do (model, tokenizer, train_cfg) <~ launch_eval_head env eval_args in
  do _ <~ @raise _ unit NameError in
  launch_eval_tail env eval_args model tokenizer train_cfg.

End Eval.

(** ** Executable instances

    An integer-valued instance of the float interface and small concrete
    collaborators, on which the definitions above run. *)

Definition ZFloat : FloatOps Z :=
  {| float_eq_dec := Z.eq_dec;
     fzero := 0;
     fadd := Z.add;
     fdiv := Z.div;
     of_int := fun n => n;
     math_exp := fun x => if 709 <? x then None else Some (2 ^ x);
     tsum := fun l => fold_right Z.add 0 l |}.

Module Examples.

Definition nl : string := String "010"%char EmptyString.

(** The three lines [a], [b] and [c]. *)
Definition raw : string := "a" +:+ nl +:+ "b" +:+ nl +:+ "c".

(** A generator configuration with [max_gen_len = 256]. *)
Definition gen256 : @Generator Z :=
  {| temperature := VNum 1; top_p := VNone; top_k := VNone;
     until := VList []; max_gen_len := 256 |}.

Definition world256 : @World Z := {| generator := gen256; calls := [] |}.

(** A generator whose [generate] always raises. *)
Definition failing_generate (g : @Generator Z) (inputs : list string)
  : Result (@GenOut Z) :=
  Raise (RuntimeError "CUDA out of memory").

(** A generator that answers every input with a three-line generation,
    three log-likelihoods and three greedy flags. *)
Definition lines_generate (g : @Generator Z) (inputs : list string)
  : Result (@GenOut Z) :=
  Ok ((fun _ => raw) <$> inputs,
      (fun _ => [-1; -2; -3]) <$> inputs,
      (fun _ => [true; false; true]) <$> inputs).

(** A byte-level tokenizer: one token per character. *)
Definition byte_encode (s : string) : list Z :=
  map (fun c => Z.of_nat (nat_of_ascii c)) (list_ascii_of_string s).

Definition stop_nl : gmap string (@Value Z) := {[ "until" := VList [nl] ]}.
Definition stop_none : gmap string (@Value Z) := ∅.

(** A generator whose log-likelihood tensor for a text holds the single
    entry [-len(text)]. *)
Definition length_generate (g : @Generator Z) (inputs : list string)
  : Result (@GenOut Z) :=
  Ok (inputs,
      (fun t => [- Z.of_nat (String.length t)]) <$> inputs,
      (fun _ => [true]) <$> inputs).

(** A model with output length 8 whose summed loss on a batch is the
    number of targets. *)
Definition seq_len8 (model : unit) : Z := 8.
Definition forward (model : unit) (x : list (list Z)) : list (list Z) := x.
Definition count_loss (pred y : list (list Z)) : Z := numel y.
Definition boe1 (tokenizer_args : TokenizerArgs) : Z := 1.

(** Chunk lookups that find none, one and two chunk files. *)
Definition no_chunks (path : string) (world_size : Z) (file_pattern : string)
    (s3_profile : option string) : list string := [].
Definition one_chunk (path : string) (world_size : Z) (file_pattern : string)
    (s3_profile : option string) : list string :=
  [path +:+ "/shard.chunk.00.val.jsonl"].
Definition two_chunks (path : string) (world_size : Z) (file_pattern : string)
    (s3_profile : option string) : list string :=
  [path +:+ "/a.chunk.00.val.jsonl"; path +:+ "/b.chunk.00.val.jsonl"].

(** A pipeline that yields one unmasked 2x2 batch and one masked batch
    with a single real position. *)
Definition two_batches (it : PackingIterator) : list Batch :=
  [ {| batch_x := [[1; 2]; [3; 4]]; batch_y := [[2; 3]; [4; 5]]; batch_mask := None |};
    {| batch_x := [[5; 0]]; batch_y := [[6; 0]];
       batch_mask := Some [[true; false]] |} ].
Definition no_batches (it : PackingIterator) : list Batch := [].

Definition bytes_args : TokenizerArgs := {| tokenizer_name := "bytes" |}.
Definition sp_args : TokenizerArgs := {| tokenizer_name := "sp" |}.
Definition byte_patcher : PatcherArgs := {| patching_mode := "byte" |}.

(** A chunk file whose only document is its own file name. *)
Definition chunk_texts (it : DocIterator) : list string :=
  match it with
  | ArrowFileIterator _ (Some files) _ _ => files
  | _ => []
  end.

(** A single process: the mean over the ranks is the identity. *)
Definition single_rank (metrics : gmap string (@Num Z)) : gmap string (@Num Z) :=
  metrics.

(** Two validation sources named [val.jsonl] in different directories. *)
Definition two_vals : ValidationArgs :=
  {| max_n_docs := None;
     val_sources := ["a/val.jsonl"; "bb/val.jsonl"];
     val_root_dir := "/data" |}.
Definition no_train_sources : TrainArgs :=
  {| data := {| data_sources := []; data_root_dir := "/train";
                data_s3_profile := None; data_arrow_batch_size := 100;
                data_tokenizer_args := bytes_args |} |}.

(** A run of the driver on one process that has consolidated checkpoints. *)
Definition ckpt_env : @Env unit unit :=
  {| dist_is_initialized := false;
     fs_exists := fun _ => true;
     fs_glob := fun _ => ["/ckpt/consolidated.pth"];
     get_global_rank := 0;
     consolidate_checkpoints := fun dir => dir;
     load_consolidated_model_and_tokenizer := fun _ => (tt, tt, no_train_sources) |}.
Definition plain_args : @EvalArgs unit :=
  {| ckpt_dir := "/ckpt"; dump_dir := "/dump"; s3_profile := None;
     generator_args := tt; validation := None; metric_log_dir := None;
     global_step := None |}.
Definition val_eval_args : @EvalArgs unit :=
  {| ckpt_dir := "/ckpt"; dump_dir := "/dump"; s3_profile := None;
     generator_args := tt; validation := Some two_vals; metric_log_dir := None;
     global_step := None |}.
Definition make_generator (a : unit) (model : unit) (tokenizer : unit) : @Generator Z :=
  gen256.

End Examples.

(** ** Further vocabulary *)

(** [e] occurs in [s] (Python's [e in s]). *)
Definition occurs (e s : string) : Prop := ∃ a b, s = a +:+ e +:+ b.

(** The characters of a string. *)
Definition chars (s : string) : list ascii := list_ascii_of_string s.

(** The distinct elements of [l] that are not in [seen], in the order of
    their first appearance in [l]: the order in which a [dict] that holds
    the keys [seen] receives its new keys when the elements of [l] are
    assigned to it one after the other. *)
Fixpoint first_seen (seen l : list string) : list string :=
  match l with
  | [] => []
  | x :: rest =>
      if decide (x ∈ seen) then first_seen seen rest
      else x :: first_seen (seen ++ [x]) rest
  end.

Section Vocabulary.

Context {F : Type} `{FloatOps F}.

(** [sum(l) / len(l)] for a non-empty list of numbers. *)
Definition py_mean (l : list (@Num F)) : @Num F :=
  NFloat (fdiv (to_float (py_sum l)) (of_int (Z.of_nat (length l)))).

(** The four per-document values that lines 272-277 append for the
    log-likelihood tensor [ll] of the document [text]. *)
Definition doc_nll (ll : list F) : @Num F := NFloat (tsum ll).
Definition doc_nll_per_token (ll : list F) : @Num F :=
  NFloat (fdiv (tsum ll) (of_int (Z.of_nat (length ll)))).
Definition doc_nll_per_char (text : string) (ll : list F) : @Num F :=
  NFloat (fdiv (tsum ll) (of_int (Z.of_nat (String.length text)))).
Definition doc_seqlen (ll : list F) : @Num F := NInt (Z.of_nat (length ll)).

(** The appends of lines 273-277 for one document, in order. *)
Definition doc_metrics (text : string) (ll : list F) : list (string * @Num F) :=
  [("nll", doc_nll ll); ("nll_per_token", doc_nll_per_token ll);
   ("nll_per_char", doc_nll_per_char text ll); ("avg_seqlen", doc_seqlen ll)].

(** The values appended under the key [k] by a sequence of appends. *)
Fixpoint vals_of (k : string) (kvs : list (string * @Num F)) : list (@Num F) :=
  match kvs with
  | [] => []
  | (k', v) :: rest =>
      if String.eqb k' k then v :: vals_of k rest else vals_of k rest
  end.

(** Two generator states with the same sampling attributes. *)
Definition same_sampling (g g' : @Generator F) : Prop :=
  temperature g = temperature g' ∧ top_p g = top_p g'
  ∧ top_k g = top_k g' ∧ until g = until g'.

End Vocabulary.

Section DriverVocabulary.

Context {Model Tokenizer : Type}.

(** The test of lines 302-306: the checkpoint directory already holds a
    consolidated checkpoint. *)
Definition is_consolidated (env : @Env Model Tokenizer) (ckpt : string) : bool :=
  fs_exists env ckpt
  && fs_exists env (path_join ckpt "params.json")
  && negb (bool_decide (length (fs_glob env (path_join ckpt "*.pth")) = 0%nat)).

(** The value of [consolidate_path] when line 320 loads the model. *)
Definition model_path (env : @Env Model Tokenizer) (CONSOLIDATE_FOLDER ckpt : string)
  : string :=
  if is_consolidated env ckpt then ckpt
  else if negb (fs_exists env (path_join ckpt CONSOLIDATE_FOLDER))
          && (get_global_rank env =? 0)
       then consolidate_checkpoints env ckpt
       else path_join ckpt CONSOLIDATE_FOLDER.

End DriverVocabulary.

Module MoreExamples.

Import Examples.

(** Generation arguments whose stop value is [None], and whose stop value
    is the plain string [bc]. *)
Definition stop_is_none : gmap string (@Value Z) := {[ "until" := VNone ]}.
Definition stop_is_str : gmap string (@Value Z) := {[ "until" := VStr "bc" ]}.

(** A generator that echoes its inputs, with the log-likelihoods and greedy
    flags of [lines_generate]. *)
Definition echo_generate (g : @Generator Z) (inputs : list string)
  : Result (@GenOut Z) :=
  Ok (inputs,
      (fun _ => [-1; -2; -3]) <$> inputs,
      (fun _ => [true; false; true]) <$> inputs).

(** A generator that answers with a single tensor whatever the inputs. *)
Definition one_generate (g : @Generator Z) (inputs : list string)
  : Result (@GenOut Z) :=
  Ok (["x"], [[-1; -2; -3]], [[true; false; true]]).

(** A pipeline whose only batch is masked out entirely, and a loss that
    makes [math.exp] overflow. *)
Definition masked_batches (it : PackingIterator) : list Batch :=
  [ {| batch_x := [[1; 2]]; batch_y := [[2; 3]];
       batch_mask := Some [[false; false]] |} ].
Definition huge_loss (pred y : list (list Z)) : Z := 10000.

(** Validation sources: one path listed twice with another one between,
    two paths of different names, and three paths of the same name. *)
Definition dup_vals : ValidationArgs :=
  {| max_n_docs := None;
     val_sources := ["a/val.jsonl"; "b/x.jsonl"; "a/val.jsonl"];
     val_root_dir := "/data" |}.
Definition distinct_vals : ValidationArgs :=
  {| max_n_docs := None;
     val_sources := ["a/x.jsonl"; "b/y.jsonl"];
     val_root_dir := "/data" |}.
Definition three_vals : ValidationArgs :=
  {| max_n_docs := None;
     val_sources := ["a/val.jsonl"; "bb/val.jsonl"; "c/val.jsonl"];
     val_root_dir := "/data" |}.

End MoreExamples.

(** * Properties *)

(** ** Strings *)

Lemma string_length_append (a b : string) :
  String.length (a +:+ b) = (String.length a + String.length b)%nat.
Proof. induction a as [|c a IH]; simpl; [reflexivity | now rewrite IH]. Qed.

Lemma prefix_append (e r : string) : String.prefix e (e +:+ r) = true.
Proof.
  induction e as [|c e IH]; simpl.
  - now destruct r.
  - destruct (ascii_dec c c); [exact IH | congruence].
Qed.

Lemma prefix_inv (e s : string) :
  String.prefix e s = true → ∃ r, s = e +:+ r.
Proof.
  revert s. induction e as [|c e IH]; intros s Hp.
  - now exists s.
  - destruct s as [|c' s]; simpl in Hp; [discriminate |].
    destruct (ascii_dec c c') as [->|]; [| discriminate].
    destruct (IH _ Hp) as [r ->]. now exists r.
Qed.

Lemma append_inj_l (a b s : string) : a +:+ s = b +:+ s → a = b.
Proof.
  revert b. induction a as [|c a IH]; intros [|c' b] Heq.
  - reflexivity.
  - apply (f_equal String.length) in Heq.
    rewrite !string_length_append in Heq. cbn [String.length] in Heq. lia.
  - apply (f_equal String.length) in Heq.
    rewrite !string_length_append in Heq. cbn [String.length] in Heq. lia.
  - cbn [String.append] in Heq. injection Heq as -> Heq. f_equal. now apply IH.
Qed.

Lemma append_suffix_ne (n : string) : n ≠ n +:+ "_1".
Proof.
  intros Heq. apply (f_equal String.length) in Heq.
  rewrite string_length_append in Heq. cbn [String.length] in Heq. lia.
Qed.

Lemma replace_scan_skip (old p r : string) :
  replace_scan old (String.length p) (p +:+ r) = replace_scan old 0 r.
Proof. induction p as [|c p IH]; simpl; [reflexivity | exact IH]. Qed.

(** [str.replace(old, "")] with a non-empty [old] deletes exactly the
    occurrences a left-to-right scan meets. *)
Lemma replace_scan_deleted (c0 : ascii) (e' s : string) :
  scan_deleted (String c0 e') s (replace_scan (String c0 e') 0 s).
Proof.
  remember (String.length s) as n eqn:Hn.
  revert s Hn. induction n as [n IH] using lt_wf_ind. intros s Hn.
  destruct s as [|c r]; [constructor |].
  cbn [replace_scan].
  destruct (String.prefix (String c0 e') (String c r)) eqn:Hp.
  - destruct (prefix_inv _ _ Hp) as [r0 Hr0].
    rewrite Hr0. simpl in Hr0. injection Hr0 as _ ->.
    cbn [String.length Nat.pred]. rewrite replace_scan_skip.
    apply scan_drop.
    apply (IH (String.length r0)); [| reflexivity].
    subst n. simpl. rewrite string_length_append. lia.
  - apply scan_keep; [exact Hp |].
    apply (IH (String.length r)); [subst n; simpl; lia | reflexivity].
Qed.

Lemma str_replace_del_scan (e g : string) :
  removed_by_scan e g (str_replace_del g e).
Proof.
  destruct e as [|c0 e']; simpl; [reflexivity | apply replace_scan_deleted].
Qed.

Lemma strip_stops_applied (stops : list string) (g : string) :
  stops_applied removed_by_scan stops g (strip_stops stops g).
Proof.
  revert g. induction stops as [|e es IH]; intros g; simpl.
  - constructor.
  - econstructor; [apply str_replace_del_scan | apply IH].
Qed.

(** ** all_dicts_same *)

Section AllDictsSame.

Context {F : Type} `{FloatOps F}.

Lemma all_dicts_same_spec (dict_list : list (gmap string (@Value F))) :
  all_dicts_same dict_list = true ↔
  ∀ d1 d2, d1 ∈ dict_list → d2 ∈ dict_list → d1 = d2.
Proof.
  destruct dict_list as [|first l]; simpl.
  - split; [intros _ d1 d2 Hd; inversion Hd | reflexivity].
  - rewrite bool_decide_eq_true_2 by reflexivity. simpl.
    rewrite forallb_forall. split.
    + intros Hall d1 d2 H1 H2.
      assert (Heq : ∀ d, d ∈ first :: l → d = first).
      { intros d Hd. apply elem_of_cons in Hd as [->|Hd]; [reflexivity |].
        apply list_elem_of_In, Hall in Hd. now apply bool_decide_eq_true_1 in Hd. }
      now rewrite (Heq d1 H1), (Heq d2 H2).
    + intros Hall d Hd. apply bool_decide_eq_true_2.
      apply Hall; [right; now apply list_elem_of_In | left].
Qed.


End AllDictsSame.

(** ** EvalHarnessLM *)

Section Harness.

Context {F : Type} `{FloatOps F}.
Variable generate_fn : @Generator F → list string → Result (@GenOut F).
Variable tokenizer_encode : string → list Z.

Lemma generate_until_run (requests : list (string * gmap string (@Value F))) (w : World) :
  requests ≠ [] →
  all_dicts_same requests.*2 = true →
  let d := hd ∅ requests.*2 in
  let cfg := copy_gen_args d (generator w) in
  generate_until generate_fn requests w =
    ({| generator := cfg;
        calls := calls w ++ [{| call_config := cfg; call_inputs := requests.*1 |}] |},
     rbind (generate_fn cfg requests.*1) (fun out =>
       filter_generations (dict_get d "until" (VList [])) out.1.1)).
Proof.
  intros Hne Hsame. destruct requests as [|r rs]; [congruence |].
  unfold generate_until. rewrite Hsame.
  unfold bind, get_generator, put_generator, generate, lift. cbn -[all_dicts_same].
  destruct (generate_fn _ _) as [[[gens lls] greedy]|e]; reflexivity.
Qed.

Lemma generate_until_differ (requests : list (string * gmap string (@Value F))) (w : World) :
  all_dicts_same requests.*2 = false →
  generate_until generate_fn requests w = (w, Raise AssertionError).
Proof.
  intros Hd. destruct requests as [|r rs]; [discriminate |].
  unfold generate_until. now rewrite Hd.
Qed.


(** C2 (amended).  When [generate] returns one generation per request,
    [generate_until] returns one string per request, in request order; the
    string for a request is its raw generation after one [str.replace]
    pass per stop string, in the order supplied, each pass deleting every
    occurrence of the stop string that a left-to-right scan meets. *)
Theorem generate_until_strips_stops
    (requests : list (string * gmap string (@Value F))) (w : World)
    (stops : list string) (gens : list string) (lls : list (list F))
    (greedy : list (list bool)) :
  requests ≠ [] →
  all_dicts_same requests.*2 = true →
  iter_until (dict_get (hd ∅ requests.*2) "until" (VList [])) = Ok stops →
  generate_fn (copy_gen_args (hd ∅ requests.*2) (generator w)) requests.*1
    = Ok (gens, lls, greedy) →
  length gens = length requests →
  ∃ outs,
    (generate_until generate_fn requests w).2 = Ok outs
    ∧ length outs = length requests
    ∧ ∀ i g, gens !! i = Some g →
        ∃ out, outs !! i = Some out ∧ stops_applied removed_by_scan stops g out.
Proof.
  intros Hne Hsame Hstops Hgen Hlen.
  exists (strip_stops stops <$> gens). split; [| split].
  - rewrite (generate_until_run _ _ Hne Hsame). cbn [snd]. rewrite Hgen.
    cbn [rbind fst]. unfold filter_generations.
    destruct gens; [reflexivity |]. now rewrite Hstops.
  - now rewrite length_fmap.
  - intros i g Hg. exists (strip_stops stops g). split.
    + now rewrite list_lookup_fmap, Hg.
    + apply strip_stops_applied.
Qed.

Lemma loglikelihood_run (r : string * string) (rs : list (string * string)) (w : World) :
  let requests := r :: rs in
  let inputs := (fun req => req.1 +:+ req.2) <$> requests in
  let cfg := set_max_gen_len 1 (generator w) in
  let call := {| call_config := cfg; call_inputs := inputs |} in
  loglikelihood generate_fn tokenizer_encode requests w =
    match generate_fn cfg inputs with
    | Ok (_, lls, greedy) =>
        ({| generator := set_max_gen_len (max_gen_len (generator w)) cfg;
            calls := calls w ++ [call] |},
         Ok ((fun '(p, ll, gr) => ll_result tokenizer_encode p ll gr)
               <$> zip (zip requests.*1 lls) greedy))
    | Raise e => ({| generator := cfg; calls := calls w ++ [call] |}, Raise e)
    end.
Proof.
  cbv zeta. unfold loglikelihood, bind, get_generator, put_generator, generate, ret.
  cbn [generator calls].
  destruct (generate_fn _ _) as [[[gens lls] greedy]|e]; reflexivity.
Qed.

Lemma loglikelihood_rolling_run (requests : list string) (w : World) :
  let cfg := set_max_gen_len 1 (generator w) in
  let call := {| call_config := cfg; call_inputs := requests |} in
  loglikelihood_rolling generate_fn requests w =
    match generate_fn cfg requests with
    | Ok (_, lls, _) =>
        ({| generator := set_max_gen_len (max_gen_len (generator w)) cfg;
            calls := calls w ++ [call] |},
         Ok ((fun ll => PyTuple [PyFloat (tsum ll)]) <$> lls))
    | Raise e => ({| generator := cfg; calls := calls w ++ [call] |}, Raise e)
    end.
Proof.
  cbv zeta. unfold loglikelihood_rolling, bind, get_generator, put_generator, generate, ret.
  cbn [generator calls].
  destruct (generate_fn _ _) as [[[gens lls] greedy]|e]; reflexivity.
Qed.

(** C1 (amended).  After a call of [loglikelihood] or
    [loglikelihood_rolling] in which [generate] returns normally,
    [max_gen_len] equals its value before the call.  The value is restored
    by a plain assignment after the results are computed: when [generate]
    raises, the exception propagates out of the method, the assignment is
    skipped and [max_gen_len] is left at the temporary value 1. *)
Theorem max_gen_len_restored_on_return
    (requests : list (string * string)) (docs : list string) (w : World) :
  let cfg := set_max_gen_len 1 (generator w) in
  let inputs := (fun req => req.1 +:+ req.2) <$> requests in
  let post := (loglikelihood generate_fn tokenizer_encode requests w).1 in
  let post_rolling := (loglikelihood_rolling generate_fn docs w).1 in
  (∀ out, generate_fn cfg inputs = Ok out →
     max_gen_len (generator post) = max_gen_len (generator w))
  ∧ (∀ out, generate_fn cfg docs = Ok out →
     max_gen_len (generator post_rolling) = max_gen_len (generator w))
  ∧ (∀ e, requests ≠ [] → generate_fn cfg inputs = Raise e →
     (loglikelihood generate_fn tokenizer_encode requests w).2 = Raise e
     ∧ max_gen_len (generator post) = 1)
  ∧ (∀ e, generate_fn cfg docs = Raise e →
     (loglikelihood_rolling generate_fn docs w).2 = Raise e
     ∧ max_gen_len (generator post_rolling) = 1).
Proof.
  cbv zeta. split; [| split; [| split]].
  - intros out Hout. destruct requests as [|r rs]; [reflexivity |].
    rewrite loglikelihood_run. cbv zeta. rewrite Hout.
    now destruct out as [[gens lls] greedy].
  - intros out Hout. rewrite loglikelihood_rolling_run. cbv zeta. rewrite Hout.
    now destruct out as [[gens lls] greedy].
  - intros e Hne He. destruct requests as [|r rs]; [congruence |].
    rewrite loglikelihood_run. cbv zeta. rewrite He. now split.
  - intros e He. rewrite loglikelihood_rolling_run. cbv zeta. rewrite He. now split.
Qed.

Lemma tensor_all_spec (gr : list bool) (n : nat) :
  tensor_all (drop n gr) = true ↔
  ∀ j b, (n ≤ j)%nat → gr !! j = Some b → b = true.
Proof.
  unfold tensor_all. rewrite forallb_forall. split.
  - intros Hall j b Hj Hb. apply (Hall b).
    apply list_elem_of_In, list_elem_of_lookup. exists (j - n)%nat.
    rewrite lookup_drop. now replace (n + (j - n))%nat with j by lia.
  - intros Hall b Hb. apply list_elem_of_In, list_elem_of_lookup in Hb as [k Hk].
    rewrite lookup_drop in Hk. apply (Hall (n + k)%nat b); [lia | exact Hk].
Qed.

(** C5.  For the request [(ctx, cont)] at position [i], [loglikelihood]
    calls [generate] (once, with [max_gen_len] lowered to 1) on the
    concatenations [ctx + cont] in request order and, when [generate]
    returns one log-likelihood tensor and one greedy tensor per request,
    returns at position [i] the pair of the sum of the log-likelihoods
    from position [len(encode(ctx))] on and of the flag that is true
    exactly when every greedy entry from that position on is true. *)
Theorem loglikelihood_continuation
    (requests : list (string * string)) (w : World)
    (gens : list string) (lls : list (list F)) (greedy : list (list bool))
    (i : nat) (ctx cont : string) :
  let cfg := set_max_gen_len 1 (generator w) in
  let inputs := (fun req => req.1 +:+ req.2) <$> requests in
  let run := loglikelihood generate_fn tokenizer_encode requests w in
  generate_fn cfg inputs = Ok (gens, lls, greedy) →
  length lls = length requests →
  length greedy = length requests →
  requests !! i = Some (ctx, cont) →
  ∃ results ll gr b,
    run.2 = Ok results
    ∧ calls run.1 = calls w ++ [{| call_config := cfg; call_inputs := inputs |}]
    ∧ inputs !! i = Some (ctx +:+ cont)
    ∧ length results = length requests
    ∧ lls !! i = Some ll
    ∧ greedy !! i = Some gr
    ∧ let p_len := length (tokenizer_encode ctx) in
      results !! i = Some (PyTuple [PyFloat (tsum (drop p_len ll)); PyBool b])
      ∧ (b = true ↔ ∀ j b', (p_len ≤ j)%nat → gr !! j = Some b' → b' = true).
Proof.
  cbv zeta. intros Hgen Hlls Hgreedy Hreq.
  destruct (lookup_lt_is_Some_2 lls i) as [ll Hll];
    [rewrite Hlls; now apply lookup_lt_Some in Hreq |].
  destruct (lookup_lt_is_Some_2 greedy i) as [gr Hgr];
    [rewrite Hgreedy; now apply lookup_lt_Some in Hreq |].
  destruct requests as [|r rs]; [discriminate |].
  rewrite loglikelihood_run. cbv zeta. rewrite Hgen.
  eexists _, ll, gr, _. cbn [fst snd calls].
  split; [reflexivity |]. split; [reflexivity |].
  split; [now rewrite list_lookup_fmap, Hreq |].
  split.
  { rewrite length_fmap, !length_zip_with, length_fmap. lia. }
  split; [exact Hll |]. split; [exact Hgr |].
  split.
  - rewrite list_lookup_fmap, !lookup_zip_with, list_lookup_fmap, Hreq, Hll, Hgr.
    reflexivity.
  - apply tensor_all_spec.
Qed.

(** C10.  When [generate] returns one log-likelihood tensor per request,
    [loglikelihood_rolling] returns one result per request, in request
    order, and the result for a request is the one-element tuple holding
    the sum of its whole log-likelihood tensor, which is not the bare
    float. *)
Theorem loglikelihood_rolling_tuples
    (docs : list string) (w : World)
    (gens : list string) (lls : list (list F)) (greedy : list (list bool)) :
  docs ≠ [] →
  generate_fn (set_max_gen_len 1 (generator w)) docs = Ok (gens, lls, greedy) →
  length lls = length docs →
  ∃ results,
    (loglikelihood_rolling generate_fn docs w).2 = Ok results
    ∧ length results = length docs
    ∧ ∀ i doc, docs !! i = Some doc →
        ∃ ll, lls !! i = Some ll
          ∧ results !! i = Some (PyTuple [PyFloat (tsum ll)])
          ∧ results !! i ≠ Some (PyFloat (tsum ll)).
Proof.
  intros _ Hgen Hlen.
  exists ((fun ll => PyTuple [PyFloat (tsum ll)]) <$> lls).
  rewrite loglikelihood_rolling_run. cbv zeta. rewrite Hgen.
  split; [reflexivity |]. split; [now rewrite length_fmap |].
  intros i doc Hdoc.
  destruct (lookup_lt_is_Some_2 lls i) as [ll Hll];
    [rewrite Hlen; now apply lookup_lt_Some in Hdoc |].
  exists ll. rewrite list_lookup_fmap, Hll. cbn. repeat split; congruence.
Qed.

End Harness.

(** ** eval_ppl_on_path, eval_on_val and launch_eval *)

Section Driver.

Context {F : Type} `{FloatOps F}.
Context {Model Logits Tokenizer GeneratorArgs : Type}.
Variable generate_fn : @Generator F → list string → Result (@GenOut F).
Variable get_output_seq_len : Model → Z.
Variable model_forward : Model → list (list Z) → Logits.
Variable cross_entropy_sum : Logits → list (list Z) → F.
Variable boe_id : TokenizerArgs → Z.
Variable find_and_sanitize_chunks : string → Z → string → option string → list string.
Variable create_iter : PackingIterator → list Batch.
Variable arrow_texts : DocIterator → list string.
Variable dist_mean_dict : gmap string (@Num F) → gmap string (@Num F).
Variable new_generator : GeneratorArgs → Model → Tokenizer → @Generator F.
Variable CONSOLIDATE_FOLDER : string.

Local Abbreviation loss_loop' := (loss_loop model_forward cross_entropy_sum).
Local Abbreviation ppl_pipeline' := (ppl_pipeline get_output_seq_len boe_id).
Local Abbreviation eval_ppl_on_path' :=
  (eval_ppl_on_path get_output_seq_len model_forward cross_entropy_sum boe_id
     find_and_sanitize_chunks create_iter).

Lemma numel_nonneg {A} (t : list (list A)) : 0 ≤ numel t.
Proof. unfold numel. lia. Qed.

Lemma mask_sum_nonneg (m : list (list bool)) : 0 ≤ mask_sum m.
Proof. unfold mask_sum. lia. Qed.

Lemma loss_loop_supported (model : Model) (name : string) (batches : list Batch)
    (total_loss : F) (nb : Z) :
  supported_tokenizer name = true →
  loss_loop' model name batches (total_loss, nb) =
    ((fold_left (fun acc b =>
        fadd acc (cross_entropy_sum (model_forward model (batch_x b)) (batch_y b)))
        batches total_loss,
      fold_left (fun acc b =>
        acc + match batch_mask b with
              | None => numel (batch_y b)
              | Some mask => mask_sum mask
              end) batches nb),
     Ok tt).
Proof.
  intros Hs. revert total_loss nb.
  induction batches as [|b bs IH]; intros total_loss nb; [reflexivity |].
  cbn [loss_loop fold_left]. unfold bind at 1. unfold loss_step at 1.
  rewrite Hs. apply IH.
Qed.

Lemma loss_loop_unsupported (model : Model) (name : string) (batch : Batch)
    (rest : list Batch) (acc : F * Z) :
  supported_tokenizer name = false →
  loss_loop' model name (batch :: rest) acc = (acc, Raise NotImplementedError).
Proof.
  intros Hs. destruct acc as [total_loss nb].
  cbn [loss_loop]. unfold bind, loss_step. now rewrite Hs.
Qed.

Lemma byte_count_nonneg (batches : list Batch) (nb : Z) :
  0 ≤ nb →
  0 ≤ fold_left (fun acc b =>
         acc + match batch_mask b with
               | None => numel (batch_y b)
               | Some mask => mask_sum mask
               end) batches nb.
Proof.
  revert nb. induction batches as [|b bs IH]; intros nb Hnb; [exact Hnb |].
  cbn [fold_left]. apply IH.
  pose proof (numel_nonneg (batch_y b)).
  destruct (batch_mask b) as [m|]; [pose proof (mask_sum_nonneg m) |]; lia.
Qed.

Lemma loss_loop_returns (model : Model) (name : string) (batches : list Batch)
    (total_loss : F) (nb : Z) (acc : F * Z) (u : unit) :
  loss_loop' model name batches (total_loss, nb) = (acc, Ok u) →
  acc =
    (fold_left (fun acc b =>
       fadd acc (cross_entropy_sum (model_forward model (batch_x b)) (batch_y b)))
       batches total_loss,
     fold_left (fun acc b =>
       acc + match batch_mask b with
             | None => numel (batch_y b)
             | Some mask => mask_sum mask
             end) batches nb).
Proof.
  intros Hrun. destruct (supported_tokenizer name) eqn:Hs.
  - rewrite (loss_loop_supported _ _ _ _ _ Hs) in Hrun. now injection Hrun as <-.
  - destruct batches as [|b bs].
    + cbn in Hrun. now injection Hrun as <-.
    + rewrite (loss_loop_unsupported _ _ _ _ _ Hs) in Hrun. discriminate.
Qed.

(** C3.  The mapping that [eval_ppl_on_path] returns has as [loss_sum] the
    sum over the batches of the summed cross-entropy, as [n_bytes] the sum
    over the batches of [mask.sum()] when the batch has a mask and of
    [y.numel()] otherwise, and as [ppl] the value [0.0] when [n_bytes] is
    zero and [exp(loss_sum / n_bytes)] when it is positive.  Under a
    supported tokenizer family and with exactly one chunk found, the
    function does return this mapping. *)
Theorem eval_ppl_on_path_result
    (model : Model) (tokenizer_args : TokenizerArgs) (patcher_args : PatcherArgs)
    (add_patches : bool) (path : string) (batch_size arrow_batch_size : Z)
    (max_n_docs : option Z) (s3_profile : option string) :
  let chunks := find_and_sanitize_chunks path 1 "*.val.jsonl" s3_profile in
  let batches :=
    create_iter (ppl_pipeline' model tokenizer_args patcher_args add_patches
                   (hd "" chunks) batch_size arrow_batch_size max_n_docs s3_profile) in
  let total :=
    fold_left (fun acc b =>
      fadd acc (cross_entropy_sum (model_forward model (batch_x b)) (batch_y b)))
      batches fzero in
  let nb :=
    fold_left (fun acc b =>
      acc + match batch_mask b with
            | None => numel (batch_y b)
            | Some mask => mask_sum mask
            end) batches 0 in
  let run :=
    eval_ppl_on_path' model tokenizer_args patcher_args add_patches path
      batch_size arrow_batch_size max_n_docs s3_profile in
  0 ≤ nb
  ∧ (∀ r, run = Ok r →
       n_bytes r = nb
       ∧ loss_sum r = total
       ∧ (nb = 0 → ppl r = fzero)
       ∧ (0 < nb → math_exp (fdiv total (of_int nb)) = Some (ppl r)))
  ∧ (tokenizer_name tokenizer_args ∈ ["bytes"; "blt"] →
     length chunks = 1%nat →
       (nb = 0 → run = Ok {| n_bytes := 0; loss_sum := total; ppl := fzero |})
       ∧ (0 < nb → ∀ v, math_exp (fdiv total (of_int nb)) = Some v →
            run = Ok {| n_bytes := nb; loss_sum := total; ppl := v |})).
Proof.
  cbv zeta. split; [now apply byte_count_nonneg |]. split.
  - intros r. unfold eval_ppl_on_path.
    case_bool_decide as Hlen; [| discriminate].
    destruct (find_and_sanitize_chunks path 1 "*.val.jsonl" s3_profile)
      as [|chunk cs]; [discriminate |]. cbn [hd].
    destruct (loss_loop' _ _ _ _) as [[total_loss nb] [u|e]] eqn:Hloop;
      [| discriminate].
    apply loss_loop_returns in Hloop. injection Hloop as -> ->.
    unfold perplexity. destruct (0 <? _) eqn:Hpos.
    + destruct (math_exp _) as [v|] eqn:Hv; [| discriminate].
      cbn [rbind]. intros Hr. injection Hr as <-. cbn [n_bytes loss_sum ppl].
      apply Z.ltb_lt in Hpos.
      split; [reflexivity |]. split; [reflexivity |]. split; [lia | now intros _].
    + cbn [rbind]. intros Hr. injection Hr as <-. cbn [n_bytes loss_sum ppl].
      apply Z.ltb_ge in Hpos.
      split; [reflexivity |]. split; [reflexivity |]. split; [reflexivity | lia].
  - intros Hname Hlen.
    assert (Hs : supported_tokenizer (tokenizer_name tokenizer_args) = true)
      by now apply bool_decide_eq_true_2.
    unfold eval_ppl_on_path. rewrite bool_decide_eq_true_2 by exact Hlen.
    destruct (find_and_sanitize_chunks path 1 "*.val.jsonl" s3_profile)
      as [|chunk cs]; [discriminate |]. cbn [hd].
    rewrite (loss_loop_supported _ _ _ _ _ Hs). split.
    + intros Hz. rewrite Hz. reflexivity.
    + intros Hpos v Hv. unfold perplexity.
      apply Z.ltb_lt in Hpos. rewrite Hpos, Hv. reflexivity.
Qed.

(** C7.  Under a tokenizer family other than ['bytes'] and ['blt'], the
    loss loop raises [NotImplementedError] at the first batch with the
    accumulators [(total_loss, n_bytes)] unchanged (the loop body raises
    on every batch and accumulator state), and so does [eval_ppl_on_path]
    as soon as the one chunk yields a batch. *)
Theorem unsupported_tokenizer_raises
    (model : Model) (tokenizer_args : TokenizerArgs) :
  tokenizer_name tokenizer_args ∉ ["bytes"; "blt"] →
  (∀ batch acc,
     loss_step model_forward cross_entropy_sum model (tokenizer_name tokenizer_args)
       batch acc
     = (acc, Raise NotImplementedError))
  ∧ (∀ batch rest acc,
     loss_loop' model (tokenizer_name tokenizer_args) (batch :: rest) acc
     = (acc, Raise NotImplementedError))
  ∧ (∀ patcher_args add_patches path batch_size arrow_batch_size max_n_docs
       s3_profile chunk,
       find_and_sanitize_chunks path 1 "*.val.jsonl" s3_profile = [chunk] →
       create_iter (ppl_pipeline' model tokenizer_args patcher_args add_patches
                      chunk batch_size arrow_batch_size max_n_docs s3_profile) ≠ [] →
       eval_ppl_on_path' model tokenizer_args patcher_args add_patches path
         batch_size arrow_batch_size max_n_docs s3_profile
       = Raise NotImplementedError).
Proof.
  intros Hname.
  assert (Hs : supported_tokenizer (tokenizer_name tokenizer_args) = false)
    by now apply bool_decide_eq_false_2.
  split; [| split].
  - intros batch [total_loss nb]. unfold loss_step. now rewrite Hs.
  - intros batch rest acc. now apply loss_loop_unsupported.
  - intros patcher_args add_patches path batch_size arrow_batch_size max_n_docs
      s3_profile chunk Hchunks Hbatches.
    unfold eval_ppl_on_path. rewrite Hchunks.
    rewrite bool_decide_eq_true_2 by reflexivity.
    destruct (create_iter _) as [|b bs]; [congruence |].
    now rewrite (loss_loop_unsupported _ _ _ _ _ Hs).
Qed.

Local Abbreviation build_path_to_iter' := (build_path_to_iter find_and_sanitize_chunks).
Local Abbreviation source_metrics' := (source_metrics generate_fn arrow_texts dist_mean_dict).
Local Abbreviation source_result' := (source_result generate_fn arrow_texts dist_mean_dict).
Local Abbreviation val_loop' := (val_loop generate_fn arrow_texts dist_mean_dict).
Local Abbreviation eval_on_val' :=
  (eval_on_val generate_fn find_and_sanitize_chunks arrow_texts dist_mean_dict).

Lemma build_path_to_iter_bad (train_cfg : TrainArgs) (srcs : list string)
    (acc : list (string * DocIterator)) (path : string) :
  path ∈ srcs →
  length (find_and_sanitize_chunks path 1 "*.val.jsonl"
            (data_s3_profile (data train_cfg))) ≠ 1%nat →
  build_path_to_iter' train_cfg srcs acc = Raise AssertionError.
Proof.
  intros Hin Hbad. revert acc.
  induction srcs as [|p rest IH]; intros acc; [inversion Hin |].
  cbn [build_path_to_iter].
  destruct (decide (p = path)) as [->|Hne].
  - now rewrite bool_decide_eq_false_2.
  - apply elem_of_cons in Hin as [Heq|Hin]; [congruence |].
    case_bool_decide as Hlen; [| reflexivity].
    destruct (find_and_sanitize_chunks p _ _ _) as [|chunk cs]; [discriminate |].
    now apply IH.
Qed.

(** C6.  When the chunk lookup of a validation source does not yield
    exactly one chunk file, the run fails at once with the hard failure of
    the [assert] statement that follows the lookup, an [AssertionError]
    that nothing catches or retries: [eval_ppl_on_path] raises it before
    the data pipeline is built, and [eval_on_val] raises it before the
    generator is touched or called. *)
Theorem chunk_count_asserted :
  (∀ (model : Model) tokenizer_args patcher_args add_patches path batch_size
     arrow_batch_size max_n_docs s3_profile,
     length (find_and_sanitize_chunks path 1 "*.val.jsonl" s3_profile) ≠ 1%nat →
     eval_ppl_on_path' model tokenizer_args patcher_args add_patches path
       batch_size arrow_batch_size max_n_docs s3_profile
     = Raise AssertionError)
  ∧ (∀ val_args train_cfg (w : World) path,
     path ∈ val_srcs val_args train_cfg →
     length (find_and_sanitize_chunks path 1 "*.val.jsonl"
               (data_s3_profile (data train_cfg))) ≠ 1%nat →
     eval_on_val' val_args train_cfg w = (w, Raise AssertionError)).
Proof.
  split.
  - intros model tokenizer_args patcher_args add_patches path batch_size
      arrow_batch_size max_n_docs s3_profile Hbad.
    unfold eval_ppl_on_path. now rewrite bool_decide_eq_false_2.
  - intros val_args train_cfg w path Hin Hbad.
    unfold eval_on_val, bind, lift.
    now rewrite (build_path_to_iter_bad _ _ _ _ Hin Hbad).
Qed.

Local Abbreviation iter_of train_cfg p :=
  (val_iterator train_cfg
     (hd "" (find_and_sanitize_chunks p 1 "*.val.jsonl"
               (data_s3_profile (data train_cfg))))).

Lemma dict_set_fresh {V} (k : string) (v : V) (d : list (string * V)) :
  k ∉ d.*1 → dict_set k v d = d ++ [(k, v)].
Proof.
  induction d as [|[k' v'] d IH]; intros Hk; simpl; [reflexivity |].
  rewrite fmap_cons, not_elem_of_cons in Hk. destruct Hk as [Hne Hk].
  cbn [fst] in Hne. rewrite bool_decide_eq_false_2 by congruence. now rewrite IH.
Qed.

Lemma build_path_to_iter_nodup (train_cfg : TrainArgs) (srcs : list string)
    (acc items : list (string * DocIterator)) :
  NoDup (acc.*1 ++ srcs) →
  build_path_to_iter' train_cfg srcs acc = Ok items →
  items = acc ++ ((fun p => (p, iter_of train_cfg p)) <$> srcs).
Proof.
  revert acc. induction srcs as [|p rest IH]; intros acc Hnd Hb.
  - cbn in Hb. injection Hb as <-. now rewrite fmap_nil, app_nil_r.
  - cbn [build_path_to_iter] in Hb.
    case_bool_decide as Hlen; [| discriminate].
    destruct (find_and_sanitize_chunks p _ _ _) as [|chunk cs] eqn:Hfind;
      [discriminate |].
    assert (Hp : p ∉ acc.*1).
    { apply NoDup_app in Hnd as (_ & Hdis & _). intros Hin.
      apply (Hdis p Hin). left. }
    rewrite (dict_set_fresh _ _ _ Hp) in Hb.
    apply IH in Hb.
    + rewrite Hb, fmap_cons, <- app_assoc, Hfind. reflexivity.
    + rewrite fmap_app, <- app_assoc. exact Hnd.
Qed.

Lemma source_metrics_run (iterator : DocIterator) (w : World) :
  source_metrics' iterator w =
    ({| generator := generator w;
        calls := calls w ++ [{| call_config := generator w;
                                call_inputs := arrow_texts iterator |}] |},
     source_result' (generator w) iterator).
Proof.
  unfold source_metrics, source_result, bind, generate, lift.
  destruct (generate_fn _ _) as [[[gens lls] greedy]|e]; reflexivity.
Qed.

Lemma val_loop_cons (src : string) (iterator : DocIterator)
    (rest : list (string * DocIterator))
    (all_val_metrics : gmap string (gmap string (@Num F))) (w : World) :
  val_loop' ((src, iterator) :: rest) all_val_metrics w =
    let w1 := (source_metrics' iterator w).1 in
    match source_result' (generator w) iterator with
    | Ok metrics => val_loop' rest (store_metrics src metrics all_val_metrics) w1
    | Raise e => (w1, Raise e)
    end.
Proof.
  cbn [val_loop]. unfold bind at 1. rewrite source_metrics_run. cbn [fst].
  now destruct (source_result' _ _).
Qed.

Lemma val_loop_generator (items : list (string * DocIterator))
    (all_val_metrics : gmap string (gmap string (@Num F))) (w : World) :
  generator (val_loop' items all_val_metrics w).1 = generator w.
Proof.
  revert all_val_metrics w.
  induction items as [|[src it] rest IH]; intros all_val_metrics w; [reflexivity |].
  rewrite val_loop_cons. cbv zeta. rewrite source_metrics_run. cbn [fst].
  destruct (source_result' _ _); [now rewrite IH | reflexivity].
Qed.

Lemma val_loop_app (l1 l2 : list (string * DocIterator))
    (all_val_metrics res : gmap string (gmap string (@Num F))) (w w' : World) :
  val_loop' (l1 ++ l2) all_val_metrics w = (w', Ok res) →
  ∃ w1 all1,
    val_loop' l1 all_val_metrics w = (w1, Ok all1)
    ∧ val_loop' l2 all1 w1 = (w', Ok res).
Proof.
  revert all_val_metrics w.
  induction l1 as [|[src it] l1 IH]; intros all_val_metrics w Hrun.
  - now exists w, all_val_metrics.
  - rewrite <- app_comm_cons, val_loop_cons in Hrun. rewrite val_loop_cons.
    cbv zeta in *. destruct (source_result' _ _); [| discriminate].
    now apply IH.
Qed.

Lemma store_metrics_other (src k : string) (metrics : gmap string (@Num F))
    (all_val_metrics : gmap string (gmap string (@Num F))) :
  ¬ writes_key src k →
  store_metrics src metrics all_val_metrics !! k = all_val_metrics !! k.
Proof.
  intros Hk. unfold store_metrics.
  apply lookup_insert_ne. intros Heq. apply Hk. unfold writes_key.
  case_bool_decide; [right | left]; now symmetry.
Qed.

Lemma val_loop_other (k : string) (items : list (string * DocIterator))
    (all_val_metrics res : gmap string (gmap string (@Num F))) (w w' : World) :
  (∀ src, src ∈ items.*1 → ¬ writes_key src k) →
  val_loop' items all_val_metrics w = (w', Ok res) →
  res !! k = all_val_metrics !! k.
Proof.
  revert all_val_metrics w.
  induction items as [|[src it] rest IH]; intros all_val_metrics w Hk Hrun.
  - cbn in Hrun. now injection Hrun as _ <-.
  - rewrite val_loop_cons in Hrun. cbv zeta in Hrun.
    destruct (source_result' _ _) as [m|]; [| discriminate].
    apply IH in Hrun.
    + rewrite Hrun. apply store_metrics_other, Hk. rewrite fmap_cons. left.
    + intros q Hq. apply Hk. rewrite fmap_cons. now right.
Qed.

Lemma fmap_fst_pair {A B} (g : A → B) (l : list A) :
  ((fun a => (a, g a)) <$> l).*1 = l.
Proof. induction l as [|a l IH]; [reflexivity |]. rewrite !fmap_cons, IH. reflexivity. Qed.

Lemma build_path_to_iter_returns (train_cfg : TrainArgs) (srcs : list string)
    (acc : list (string * DocIterator)) :
  (∀ q, q ∈ srcs →
     length (find_and_sanitize_chunks q 1 "*.val.jsonl"
               (data_s3_profile (data train_cfg))) = 1%nat) →
  ∃ items, build_path_to_iter' train_cfg srcs acc = Ok items.
Proof.
  revert acc. induction srcs as [|p rest IH]; intros acc Hone.
  - now exists acc.
  - cbn [build_path_to_iter].
    pose proof (Hone p ltac:(left)) as Hp.
    rewrite bool_decide_eq_true_2 by exact Hp.
    destruct (find_and_sanitize_chunks p _ _ _) as [|chunk cs]; [discriminate |].
    apply IH. intros q Hq. apply Hone. now right.
Qed.

Lemma val_loop_returns (items : list (string * DocIterator))
    (all_val_metrics : gmap string (gmap string (@Num F))) (w : World) :
  (∀ it, it ∈ items.*2 → is_Ok (source_result' (generator w) it) = true) →
  ∃ w' res, val_loop' items all_val_metrics w = (w', Ok res).
Proof.
  revert all_val_metrics w.
  induction items as [|[src it] rest IH]; intros all_val_metrics w Hok.
  - now exists w, all_val_metrics.
  - rewrite val_loop_cons. cbv zeta.
    pose proof (Hok it ltac:(rewrite fmap_cons; left)) as Hit.
    destruct (source_result' (generator w) it) as [m|]; [| discriminate].
    apply IH. intros it' Hit'. rewrite source_metrics_run. cbn [fst generator].
    apply Hok. rewrite fmap_cons. now right.
Qed.

Lemma val_keys_when_returned
    (val_args : ValidationArgs) (train_cfg : TrainArgs) (w w' : World)
    (res : gmap string (gmap string (@Num F)))
    (pre mid post : list string) (p1 p2 n : string) :
  val_srcs val_args train_cfg = pre ++ p1 :: mid ++ p2 :: post →
  NoDup (val_srcs val_args train_cfg) →
  basename p1 = n →
  basename p2 = n →
  (∀ q, q ∈ pre ++ mid ++ post →
     basename q ≠ n ∧ basename q ≠ n +:+ "_1" ∧ basename q +:+ "_1" ≠ n) →
  eval_on_val' val_args train_cfg w = (w', Ok res) →
  ∃ m1 m2,
    source_result' (set_max_gen_len 1 (generator w)) (iter_of train_cfg p1) = Ok m1
    ∧ source_result' (set_max_gen_len 1 (generator w)) (iter_of train_cfg p2) = Ok m2
    ∧ res !! n = Some m1
    ∧ res !! (n +:+ "_1") = Some m2.
Proof.
  intros Hsrcs Hnd Hn1 Hn2 Hothers Hrun.
  assert (Hk : ∀ q, q ∈ pre ++ mid ++ post →
                 ¬ writes_key q n ∧ ¬ writes_key q (n +:+ "_1")).
  { intros q Hq. destruct (Hothers q Hq) as (Ha & Hb & Hc). unfold writes_key.
    split; intros [Hx|Hx]; try congruence.
    apply append_inj_l in Hx. congruence. }
  unfold eval_on_val, bind, lift, get_generator, put_generator, ret in Hrun.
  destruct (build_path_to_iter' train_cfg _ []) as [items|e] eqn:Hb; [| discriminate].
  apply build_path_to_iter_nodup in Hb; [| exact Hnd].
  cbn [app generator calls] in Hrun, Hb.
  set (w1 := {| generator := set_max_gen_len 1 (generator w); calls := calls w |}) in Hrun.
  destruct (val_loop' items ∅ w1) as [w2 [all|e]] eqn:Hloop; [| discriminate].
  injection Hrun as _ <-.
  rewrite Hsrcs, fmap_app, fmap_cons, fmap_app, fmap_cons in Hb. subst items.
  (* the sources before [p1] *)
  apply val_loop_app in Hloop as (wa & alla & Hpre & Hloop).
  assert (Hga : generator wa = generator w1).
  { match type of Hpre with
    | val_loop _ _ _ ?l ?a ?v = _ => pose proof (val_loop_generator l a v) as Hg
    end.
    now rewrite Hpre in Hg. }
  assert (Ha : alla !! n = None ∧ alla !! (n +:+ "_1") = None).
  { split; (erewrite val_loop_other; [apply lookup_empty | | exact Hpre]);
      intros q Hq; rewrite fmap_fst_pair in Hq; apply Hk; rewrite !elem_of_app; tauto. }
  destruct Ha as [Han Han1].
  (* [p1] *)
  rewrite val_loop_cons in Hloop. cbv zeta in Hloop. rewrite Hga in Hloop.
  destruct (source_result' (generator w1) (iter_of train_cfg p1)) as [m1|] eqn:Hm1;
    [| discriminate].
  assert (Hs1 : store_metrics p1 m1 alla = <[n := m1]> alla).
  { unfold store_metrics. rewrite Hn1, Han.
    rewrite bool_decide_eq_false_2; [reflexivity | now intros [? ?]]. }
  rewrite Hs1 in Hloop.
  (* the sources between [p1] and [p2] *)
  apply val_loop_app in Hloop as (wb & allb & Hmid & Hloop).
  assert (Hgb : generator wb = generator w1).
  { match type of Hmid with
    | val_loop _ _ _ ?l ?a ?v = _ => pose proof (val_loop_generator l a v) as Hg
    end.
    rewrite Hmid, source_metrics_run in Hg. now rewrite <- Hga. }
  assert (Hb : allb !! n = Some m1 ∧ allb !! (n +:+ "_1") = None).
  { split; (erewrite val_loop_other; [| | exact Hmid]).
    - apply lookup_insert_eq.
    - intros q Hq. rewrite fmap_fst_pair in Hq. apply Hk. rewrite !elem_of_app. tauto.
    - rewrite lookup_insert_ne; [exact Han1 | apply append_suffix_ne].
    - intros q Hq. rewrite fmap_fst_pair in Hq. apply Hk. rewrite !elem_of_app. tauto. }
  destruct Hb as [Hbn Hbn1].
  (* [p2] *)
  rewrite val_loop_cons in Hloop. cbv zeta in Hloop. rewrite Hgb in Hloop.
  destruct (source_result' (generator w1) (iter_of train_cfg p2)) as [m2|] eqn:Hm2;
    [| discriminate].
  assert (Hs2 : store_metrics p2 m2 allb = <[n +:+ "_1" := m2]> allb).
  { unfold store_metrics. rewrite Hn2, Hbn.
    rewrite bool_decide_eq_true_2; [reflexivity | now eexists]. }
  rewrite Hs2 in Hloop.
  (* the sources after [p2] *)
  exists m1, m2. split; [exact Hm1 |]. split; [exact Hm2 |].
  split; (erewrite val_loop_other; [| | exact Hloop]).
  - rewrite lookup_insert_ne; [exact Hbn |].
    intros Heq. now apply (append_suffix_ne n).
  - intros q Hq. rewrite fmap_fst_pair in Hq. apply Hk. rewrite !elem_of_app. tauto.
  - apply lookup_insert_eq.
  - intros q Hq. rewrite fmap_fst_pair in Hq. apply Hk. rewrite !elem_of_app. tauto.
Qed.

Lemma eval_on_val_returns (val_args : ValidationArgs) (train_cfg : TrainArgs)
    (w : World) :
  NoDup (val_srcs val_args train_cfg) →
  (∀ q, q ∈ val_srcs val_args train_cfg →
     length (find_and_sanitize_chunks q 1 "*.val.jsonl"
               (data_s3_profile (data train_cfg))) = 1%nat
     ∧ is_Ok (source_result' (set_max_gen_len 1 (generator w))
                (iter_of train_cfg q)) = true) →
  ∃ w' res, eval_on_val' val_args train_cfg w = (w', Ok res).
Proof.
  intros Hnd Hall.
  destruct (build_path_to_iter_returns train_cfg (val_srcs val_args train_cfg) [])
    as [items Hb]; [intros q Hq; now apply Hall |].
  pose proof (build_path_to_iter_nodup train_cfg _ [] _ Hnd Hb) as Hitems.
  cbn [app] in Hitems.
  unfold eval_on_val, bind, lift, get_generator, put_generator, ret.
  rewrite Hb. cbn [generator calls].
  destruct (val_loop_returns items ∅
              {| generator := set_max_gen_len 1 (generator w); calls := calls w |})
    as (w2 & res & Hloop).
  - intros it Hit. cbn [generator]. subst items.
    rewrite <- list_fmap_compose in Hit.
    apply list_elem_of_fmap in Hit as (q & -> & Hq). now apply Hall.
  - rewrite Hloop. eauto.
Qed.

(** C8.  Let two distinct source paths [p1] (first) and [p2] (later) have
    the same basename [n], while no other source can be stored under [n]
    or [n_1].  When [eval_on_val] returns, the metrics of [p1] are stored
    under the key [n] and the metrics of [p2] under the key [n_1].  It does
    return when every source has exactly one chunk and the metrics of
    every source can be computed. *)
Theorem duplicate_basename_keys
    (val_args : ValidationArgs) (train_cfg : TrainArgs) (w : World)
    (pre mid post : list string) (p1 p2 n : string) :
  val_srcs val_args train_cfg = pre ++ p1 :: mid ++ p2 :: post →
  NoDup (val_srcs val_args train_cfg) →
  basename p1 = n →
  basename p2 = n →
  (∀ q, q ∈ pre ++ mid ++ post →
     basename q ≠ n ∧ basename q ≠ n +:+ "_1" ∧ basename q +:+ "_1" ≠ n) →
  let cfg := set_max_gen_len 1 (generator w) in
  (∀ w' res,
     eval_on_val' val_args train_cfg w = (w', Ok res) →
     ∃ m1 m2,
       source_result' cfg (iter_of train_cfg p1) = Ok m1
       ∧ source_result' cfg (iter_of train_cfg p2) = Ok m2
       ∧ res !! n = Some m1
       ∧ res !! (n +:+ "_1") = Some m2)
  ∧ ((∀ q, q ∈ val_srcs val_args train_cfg →
        length (find_and_sanitize_chunks q 1 "*.val.jsonl"
                  (data_s3_profile (data train_cfg))) = 1%nat
        ∧ is_Ok (source_result' cfg (iter_of train_cfg q)) = true) →
     ∃ w' res, eval_on_val' val_args train_cfg w = (w', Ok res)).
Proof.
  intros Hsrcs Hnd Hn1 Hn2 Hothers. cbv zeta. split.
  - intros w' res Hrun. eapply val_keys_when_returned; eassumption.
  - now apply eval_on_val_returns.
Qed.

Local Abbreviation launch_eval_head' :=
  (launch_eval_head (Tokenizer:=Tokenizer) get_output_seq_len model_forward
     cross_entropy_sum boe_id find_and_sanitize_chunks create_iter CONSOLIDATE_FOLDER).
Local Abbreviation launch_eval_tail' :=
  (launch_eval_tail generate_fn find_and_sanitize_chunks arrow_texts dist_mean_dict
     new_generator).
Local Abbreviation launch_eval' :=
  (launch_eval generate_fn get_output_seq_len model_forward cross_entropy_sum boe_id
     find_and_sanitize_chunks create_iter arrow_texts dist_mean_dict new_generator
     CONSOLIDATE_FOLDER).

(** A computation that only appends events, all of them satisfying [P]. *)
Local Abbreviation traced P m :=
  (∀ tr : list (@Event F), ∃ evs, (m tr).1 = tr ++ evs ∧ Forall P evs).
Local Abbreviation quiet m := (traced (fun ev => is_harness_event ev = false) m).

Lemma traced_ret {A} P (a : A) : traced P (@ret (list (@Event F)) A a).
Proof. intros tr. exists []. now rewrite app_nil_r. Qed.

Lemma traced_raise {A} P (e : exn) : traced P (@raise (list (@Event F)) A e).
Proof. intros tr. exists []. now rewrite app_nil_r. Qed.

Lemma traced_lift {A} P (r : Result A) : traced P (@lift (list (@Event F)) A r).
Proof. intros tr. exists []. now rewrite app_nil_r. Qed.

Lemma traced_emit (P : @Event F → Prop) (ev : @Event F) : P ev → traced P (emit ev).
Proof. intros Hev tr. exists [ev]. split; [reflexivity | now repeat constructor]. Qed.

Lemma traced_bind {A B} P (m : ST (list (@Event F)) A) (k : A → ST (list (@Event F)) B) :
  traced P m → (∀ a, traced P (k a)) → traced P (bind m k).
Proof.
  intros Hm Hk tr. unfold bind. destruct (Hm tr) as (evs & Htr & Hevs).
  destruct (m tr) as [tr1 [a|e]]; cbn [fst] in Htr; subst tr1.
  - destruct (Hk a (tr ++ evs)) as (evs' & Htr' & Hevs').
    exists (evs ++ evs'). rewrite Htr', app_assoc. split; [reflexivity |].
    now apply Forall_app.
  - now exists evs.
Qed.

Lemma launch_eval_head_quiet (env : @Env Model Tokenizer)
    (eval_args : @EvalArgs GeneratorArgs) :
  quiet (launch_eval_head' env eval_args).
Proof.
  unfold launch_eval_head.
  apply traced_bind; [destruct (dist_is_initialized env);
                      [apply traced_ret | now apply traced_emit] |]. intros _.
  apply traced_bind.
  { destruct (_ && _ && _); [apply traced_ret |].
    destruct (_ && _); [| apply traced_ret].
    apply traced_bind; [now apply traced_emit | intros _; apply traced_ret]. }
  intros consolidate_path.
  do 4 (apply traced_bind; [now apply traced_emit | intros _]).
  destruct (load_consolidated_model_and_tokenizer env consolidate_path)
    as [[model tokenizer] train_cfg].
  apply traced_bind; [| intros _; apply traced_ret].
  destruct (validation eval_args) as [v|]; [| apply traced_ret].
  apply traced_bind; [apply traced_lift | intros r; now apply traced_emit].
Qed.

(** The code after the abort does start with the harness path: its first
    effects are the construction of the generator and of its adapter. *)
Lemma launch_eval_tail_builds_generator (env : @Env Model Tokenizer)
    (eval_args : @EvalArgs GeneratorArgs) (model : Model) (tokenizer : Tokenizer)
    (train_cfg : TrainArgs) (tr : list (@Event F)) :
  ∃ evs,
    (launch_eval_tail' env eval_args model tokenizer train_cfg tr).1
    = tr ++ NewGenerator :: NewHarness :: evs.
Proof.
  unfold launch_eval_tail. unfold bind at 1 2. unfold emit at 1 2. cbv beta iota.
  match goal with
  | |- ∃ evs, (?m ?t).1 = _ =>
      assert (Hm : traced (fun _ => True) m); [| destruct (Hm t) as (evs & -> & _)]
  end.
  - apply traced_bind.
    { destruct (validation eval_args) as [v|]; [| apply traced_ret].
      apply traced_bind; [now apply traced_emit | intros _].
      apply traced_bind; [apply traced_lift | intros r; apply traced_ret]. }
    intros val_results. apply traced_bind.
    { destruct (_ =? _); [| apply traced_ret].
      apply traced_bind; [now apply traced_emit | intros _].
      destruct val_results; [now apply traced_emit | apply traced_ret]. }
    intros _. destruct (_ && _); [apply traced_raise | apply traced_ret].
  - exists evs. now rewrite <- !app_assoc.
Qed.

(** C9.  For every [EvalArgs] input and every environment, [launch_eval]
    raises: the abort placed after the perplexity path is reached unless
    that path has raised already.  No event of the harness path happens:
    the generator and its adapter are not constructed, [eval_on_val] is
    not called and no result is persisted. *)
Theorem launch_eval_aborts (env : @Env Model Tokenizer) (eval_args : @EvalArgs GeneratorArgs)
    (tr : list (@Event F)) :
  ∃ e evs,
    launch_eval' env eval_args tr = (tr ++ evs, Raise e)
    ∧ Forall (fun ev => is_harness_event ev = false) evs
    ∧ (validation eval_args = None → e = NameError).
Proof.
  unfold launch_eval.
  destruct (launch_eval_head_quiet env eval_args tr) as (evs & Htr & Hevs).
  unfold bind at 1.
  destruct (launch_eval_head' env eval_args tr) as [tr1 [[[model tokenizer] train_cfg]|e]]
    eqn:Hhead; cbn [fst] in Htr; subst tr1.
  - exists NameError, evs. unfold bind, raise. now repeat split.
  - exists e, evs. repeat split; [exact Hevs |].
    intros Hnone. exfalso. revert Hhead.
    unfold launch_eval_head, bind, emit, ret, lift. rewrite Hnone.
    repeat (case_match; subst; cbn [fst snd]); congruence.
Qed.

End Driver.

(** ** Worked examples *)

Import Examples.

(** On a successful call, [max_gen_len] is back at 256. *)
Lemma max_gen_len_restored_on_return_witness :
  max_gen_len
    (generator
       (loglikelihood (H:=ZFloat) lines_generate byte_encode [("a", "bc")] world256).1)
  = max_gen_len (generator world256).
Proof.
  pose proof (max_gen_len_restored_on_return (H:=ZFloat) lines_generate byte_encode
                [("a", "bc")] ["abc"] world256) as Hw.
  cbv zeta in Hw. destruct Hw as [Hw _]. exact (Hw _ eq_refl).
Defined.

(** C1, as stated, fails: when [generate] raises, both methods propagate
    the exception and leave [max_gen_len] at 1 instead of 256. *)
Lemma max_gen_len_left_lowered_on_failure :
  let run := loglikelihood (H:=ZFloat) failing_generate byte_encode [("a", "bc")] world256 in
  let run_rolling := loglikelihood_rolling (H:=ZFloat) failing_generate ["abc"] world256 in
  run.2 = Raise (RuntimeError "CUDA out of memory")
  ∧ max_gen_len (generator run.1) ≠ max_gen_len (generator world256)
  ∧ run_rolling.2 = Raise (RuntimeError "CUDA out of memory")
  ∧ max_gen_len (generator run_rolling.1) ≠ max_gen_len (generator world256).
Proof. cbv zeta. repeat split; try reflexivity; vm_compute; discriminate. Qed.

Lemma generate_until_strips_stops_witness :
  ∃ outs,
    (generate_until (H:=ZFloat) lines_generate [("p", stop_nl); ("q", stop_nl)] world256).2
    = Ok outs
    ∧ length outs = 2%nat
    ∧ ∀ i g, [raw; raw] !! i = Some g →
        ∃ out, outs !! i = Some out ∧ stops_applied removed_by_scan [nl] g out.
Proof.
  apply (generate_until_strips_stops (H:=ZFloat) lines_generate
           [("p", stop_nl); ("q", stop_nl)] world256 [nl] [raw; raw]
           [[-1; -2; -3]; [-1; -2; -3]] [[true; false; true]; [true; false; true]]).
  - discriminate.
  - vm_compute. reflexivity.
  - vm_compute. reflexivity.
  - reflexivity.
  - reflexivity.
Defined.

(** C2, as stated, fails: the generation [a\nb\nc] with the stop string
    [\n] comes back as [abc], which is not the generation with at most one
    occurrence of the stop string deleted. *)
Lemma generate_until_deletes_every_occurrence :
  lines_generate (copy_gen_args (H:=ZFloat) stop_nl gen256) ["p"]
    = Ok ([raw], [[-1; -2; -3]], [[true; false; true]])
  ∧ (generate_until (H:=ZFloat) lines_generate [("p", stop_nl)] world256).2 = Ok ["abc"]
  ∧ ¬ stops_applied removed_at_most_once [nl] raw "abc".
Proof.
  split; [reflexivity |]. split; [vm_compute; reflexivity |].
  intros Hs. inversion Hs as [|e es g g1 g2 Hone Hrest]; subst.
  inversion Hrest; subst. destruct Hone as [Heq | (a & b & Hraw & Hout)].
  - discriminate.
  - apply (f_equal String.length) in Hraw, Hout.
    change (String.length raw) with 5%nat in Hraw.
    change (String.length "abc") with 3%nat in Hout.
    rewrite !string_length_append in Hraw. rewrite string_length_append in Hout.
    change (String.length nl) with 1%nat in Hraw. lia.
Qed.


(** An empty request list carries no shared dict: the unpacking of the
    transposed arguments raises [ValueError] and [generate] is not
    called. *)
Lemma generate_until_empty_requests :
  let run := generate_until (H:=ZFloat) lines_generate [] world256 in
  run.2 = Raise ValueError ∧ calls run.1 = [].
Proof. cbv zeta. split; reflexivity. Qed.

Lemma loglikelihood_continuation_witness :
  ∃ results ll gr b,
    (loglikelihood (H:=ZFloat) lines_generate byte_encode
       [("a", "bc"); ("ab", "c")] world256).2 = Ok results
    ∧ calls (loglikelihood (H:=ZFloat) lines_generate byte_encode
               [("a", "bc"); ("ab", "c")] world256).1
      = [{| call_config := set_max_gen_len 1 gen256; call_inputs := ["abc"; "abc"] |}]
    ∧ ["abc"; "abc"] !! 1%nat = Some ("ab" +:+ "c")
    ∧ length results = 2%nat
    ∧ [[-1; -2; -3]; [-1; -2; -3]] !! 1%nat = Some ll
    ∧ [[true; false; true]; [true; false; true]] !! 1%nat = Some gr
    ∧ results !! 1%nat
      = Some (PyTuple [PyFloat (tsum (FloatOps:=ZFloat) (drop 2 ll)); PyBool b])
    ∧ (b = true ↔ ∀ j b', (2 ≤ j)%nat → gr !! j = Some b' → b' = true).
Proof.
  exact (loglikelihood_continuation (H:=ZFloat) lines_generate byte_encode
           [("a", "bc"); ("ab", "c")] world256
           [raw; raw] [[-1; -2; -3]; [-1; -2; -3]]
           [[true; false; true]; [true; false; true]] 1 "ab" "c"
           eq_refl eq_refl eq_refl eq_refl).
Defined.

Lemma loglikelihood_rolling_tuples_witness :
  ∃ results,
    (loglikelihood_rolling (H:=ZFloat) lines_generate ["abc"; "de"] world256).2 = Ok results
    ∧ length results = 2%nat
    ∧ ∀ i doc, ["abc"; "de"] !! i = Some doc →
        ∃ ll, [[-1; -2; -3]; [-1; -2; -3]] !! i = Some ll
          ∧ results !! i = Some (PyTuple [PyFloat (tsum (FloatOps:=ZFloat) ll)])
          ∧ results !! i ≠ Some (PyFloat (tsum (FloatOps:=ZFloat) ll)).
Proof.
  apply (loglikelihood_rolling_tuples (H:=ZFloat) lines_generate ["abc"; "de"] world256
           [raw; raw] [[-1; -2; -3]; [-1; -2; -3]]
           [[true; false; true]; [true; false; true]]).
  - discriminate.
  - reflexivity.
  - reflexivity.
Defined.

Lemma eval_ppl_on_path_result_witness :
  eval_ppl_on_path (H:=ZFloat) seq_len8 forward count_loss boe1 one_chunk two_batches
    tt bytes_args byte_patcher false "/d" 8 100 None None
  = Ok {| n_bytes := 5; loss_sum := 6; ppl := 2 |}.
Proof.
  pose proof (eval_ppl_on_path_result (H:=ZFloat) seq_len8 forward count_loss boe1
                one_chunk two_batches tt bytes_args byte_patcher false "/d" 8 100
                None None) as Hw.
  cbv zeta in Hw. destruct Hw as (_ & _ & Hw).
  destruct Hw as [_ Hpos]; [left | reflexivity |].
  exact (Hpos eq_refl 2 eq_refl).
Defined.

Lemma unsupported_tokenizer_raises_witness :
  eval_ppl_on_path (H:=ZFloat) seq_len8 forward count_loss boe1 one_chunk two_batches
    tt sp_args byte_patcher false "/d" 8 100 None None
  = Raise NotImplementedError.
Proof.
  pose proof (unsupported_tokenizer_raises (H:=ZFloat) seq_len8 forward count_loss boe1
                one_chunk two_batches tt sp_args) as Hw.
  destruct Hw as (_ & _ & Hw); [compute_done |].
  apply (Hw byte_patcher false "/d" 8 100 None None "/d/shard.chunk.00.val.jsonl").
  - reflexivity.
  - discriminate.
Defined.

Lemma chunk_count_asserted_witness :
  eval_ppl_on_path (H:=ZFloat) seq_len8 forward count_loss boe1 no_chunks two_batches
    tt bytes_args byte_patcher false "/d" 8 100 None None
  = Raise AssertionError
  ∧ eval_on_val (H:=ZFloat) length_generate two_chunks chunk_texts single_rank
      two_vals no_train_sources world256
    = (world256, Raise AssertionError).
Proof.
  destruct (chunk_count_asserted (H:=ZFloat) (Model:=unit) length_generate seq_len8
              forward count_loss boe1 no_chunks two_batches chunk_texts single_rank)
    as [Hppl _].
  destruct (chunk_count_asserted (H:=ZFloat) (Model:=unit) length_generate seq_len8
              forward count_loss boe1 two_chunks two_batches chunk_texts single_rank)
    as [_ Hval].
  split.
  - apply Hppl. discriminate.
  - apply (Hval two_vals no_train_sources world256 "/data/a/val.jsonl").
    + left.
    + discriminate.
Defined.

Lemma duplicate_basename_keys_witness :
  let run :=
    eval_on_val (H:=ZFloat) length_generate one_chunk chunk_texts single_rank
      two_vals no_train_sources world256 in
  let res := match run.2 with Ok r => r | Raise _ => ∅ end in
  let metrics_of path :=
    source_result (H:=ZFloat) length_generate chunk_texts single_rank
      (set_max_gen_len 1 gen256)
      (val_iterator no_train_sources (path +:+ "/shard.chunk.00.val.jsonl")) in
  ∃ m1 m2,
    metrics_of "/data/a/val.jsonl" = Ok m1
    ∧ metrics_of "/data/bb/val.jsonl" = Ok m2
    ∧ res !! "val.jsonl" = Some m1
    ∧ res !! ("val.jsonl" +:+ "_1") = Some m2.
Proof.
  cbv zeta.
  destruct (duplicate_basename_keys (H:=ZFloat) length_generate one_chunk chunk_texts
              single_rank two_vals no_train_sources world256 [] [] []
              "/data/a/val.jsonl" "/data/bb/val.jsonl" "val.jsonl") as [Hkeys _].
  - reflexivity.
  - compute_done.
  - reflexivity.
  - reflexivity.
  - intros q Hq. inversion Hq.
  - eapply Hkeys. vm_compute. reflexivity.
Defined.

Lemma launch_eval_aborts_witness :
  ∃ e evs,
    launch_eval (H:=ZFloat) (Logits:=list (list Z)) length_generate seq_len8 forward
      count_loss boe1 one_chunk two_batches chunk_texts single_rank make_generator
      "consolidated" ckpt_env val_eval_args []
    = ([] ++ evs, Raise e)
    ∧ Forall (fun ev => is_harness_event ev = false) evs
    ∧ (validation val_eval_args = None → e = NameError).
Proof.
  exact (launch_eval_aborts (H:=ZFloat) (Logits:=list (list Z)) length_generate seq_len8
           forward count_loss boe1 one_chunk two_batches chunk_texts single_rank
           make_generator "consolidated" ckpt_env val_eval_args []).
Defined.

(** * Further properties *)

(** ** Stop-string removal *)

Lemma append_empty_l (s : string) : "" +:+ s = s.
Proof. reflexivity. Qed.

Lemma append_cons_l (c : ascii) (a s : string) :
  String c a +:+ s = String c (a +:+ s).
Proof. reflexivity. Qed.

Lemma chars_append (a b : string) : chars (a +:+ b) = chars a ++ chars b.
Proof.
  unfold chars. induction a as [|c a IH]; [reflexivity |].
  change (c :: list_ascii_of_string (a +:+ b)
          = c :: (list_ascii_of_string a ++ list_ascii_of_string b)).
  now rewrite IH.
Qed.

Lemma chars_length (s : string) : length (chars s) = String.length s.
Proof.
  unfold chars. induction s as [|c s IH]; [reflexivity |].
  cbn [String.length list_ascii_of_string length]. now rewrite IH.
Qed.

Lemma scan_deleted_sublist (e s s' : string) :
  scan_deleted e s s' → chars s' `sublist_of` chars s.
Proof.
  induction 1 as [|r r' _ IH|c r r' _ _ IH].
  - constructor.
  - rewrite chars_append. now apply sublist_inserts_l.
  - cbn. now apply sublist_skip.
Qed.

Lemma str_replace_del_sublist (g e : string) :
  chars (str_replace_del g e) `sublist_of` chars g.
Proof.
  pose proof (str_replace_del_scan e g) as Hs.
  destruct e as [|c0 e']; [now rewrite Hs |]. now apply (scan_deleted_sublist _ _ _ Hs).
Qed.

Lemma strip_stops_sublist (stops : list string) (g : string) :
  chars (strip_stops stops g) `sublist_of` chars g.
Proof.
  revert g. induction stops as [|e es IH]; intros g; [reflexivity |].
  cbn [strip_stops fold_left]. etransitivity; [apply IH | apply str_replace_del_sublist].
Qed.

Lemma sublist_not_elem_of {A} (x : A) (l k : list A) :
  l `sublist_of` k → x ∉ k → x ∉ l.
Proof.
  intros Hs Hk Hl. apply Hk. clear Hk.
  induction Hs as [|y l k _ IH|y l k _ IH].
  - exact Hl.
  - apply elem_of_cons in Hl as [->|Hl]; [left | right; now apply IH].
  - right. now apply IH.
Qed.

Lemma scan_deleted_char (c : ascii) (s s' : string) :
  scan_deleted (String c EmptyString) s s' → c ∉ chars s'.
Proof.
  induction 1 as [|r r' _ IH|c0 r r' Hp _ IH].
  - intros Hin. inversion Hin.
  - exact IH.
  - cbn. intros Hin. apply elem_of_cons in Hin as [->|Hin]; [| now apply IH].
    cbn in Hp. destruct (ascii_dec c0 c0); [| congruence]. now destruct r.
Qed.

Lemma strip_stops_char (c : ascii) (stops : list string) (g : string) :
  String c EmptyString ∈ stops → c ∉ chars (strip_stops stops g).
Proof.
  revert g. induction stops as [|e es IH]; intros g Hin; [inversion Hin |].
  cbn [strip_stops fold_left].
  destruct (decide (e = String c EmptyString)) as [->|Hne].
  - eapply sublist_not_elem_of; [apply strip_stops_sublist |].
    apply (scan_deleted_char c g).
    apply (str_replace_del_scan (String c EmptyString)).
  - apply elem_of_cons in Hin as [Heq|Hin]; [congruence |]. now apply IH.
Qed.

Lemma occurs_cons (c : ascii) (e r : string) : occurs e r → occurs e (String c r).
Proof. intros (a & b & ->). now exists (String c a), b. Qed.

Lemma scan_deleted_absent (e s s' : string) :
  scan_deleted e s s' → ¬ occurs e s → s' = s.
Proof.
  induction 1 as [|r r' _ IH|c r r' _ _ IH]; intros Hno.
  - reflexivity.
  - exfalso. apply Hno. now exists EmptyString, r.
  - f_equal. apply IH. intros Ho. apply Hno. now apply occurs_cons.
Qed.

Lemma scan_deleted_shorter (c0 : ascii) (e' s s' : string) :
  scan_deleted (String c0 e') s s' → occurs (String c0 e') s →
  (String.length s' < String.length s)%nat.
Proof.
  induction 1 as [|r r' Hs IH|c r r' Hp Hs IH]; intros Ho.
  - destruct Ho as (a & b & Ha). destruct a; discriminate Ha.
  - apply scan_deleted_sublist, sublist_length in Hs. rewrite !chars_length in Hs.
    rewrite string_length_append. cbn [String.length]. lia.
  - destruct Ho as (a & b & Ha). destruct a as [|ca a].
    + rewrite append_empty_l in Ha. rewrite Ha, prefix_append in Hp. discriminate.
    + rewrite append_cons_l in Ha. injection Ha as -> ->.
      cbn [String.length]. apply -> Nat.succ_lt_mono. apply IH. now exists a, b.
Qed.

Lemma str_replace_del_absent (g e : string) :
  ¬ occurs e g → str_replace_del g e = g.
Proof.
  intros Hno. pose proof (str_replace_del_scan e g) as Hs.
  destruct e as [|c0 e']; [exact Hs |]. now apply (scan_deleted_absent _ _ _ Hs).
Qed.

Lemma strip_stops_absent (stops : list string) (g : string) :
  (∀ e, e ∈ stops → ¬ occurs e g) → strip_stops stops g = g.
Proof.
  induction stops as [|e es IH]; intros Hno; [reflexivity |].
  cbn [strip_stops fold_left]. rewrite str_replace_del_absent.
  - apply IH. intros e' He'. apply Hno. now right.
  - apply Hno. left.
Qed.

Lemma strip_stops_shorter (c0 : ascii) (e' : string) (es : list string) (g : string) :
  occurs (String c0 e') g →
  (String.length (strip_stops (String c0 e' :: es) g) < String.length g)%nat.
Proof.
  intros Ho. cbn [strip_stops fold_left].
  pose proof (strip_stops_sublist es (str_replace_del g (String c0 e'))) as Hs.
  apply sublist_length in Hs. rewrite !chars_length in Hs.
  pose proof (scan_deleted_shorter _ _ _ _
                (str_replace_del_scan (String c0 e') g) Ho) as Hlt.
  unfold strip_stops in *. lia.
Qed.

Lemma classic_writes (src k : string) : writes_key src k ∨ ¬ writes_key src k.
Proof.
  unfold writes_key.
  destruct (decide (k = basename src)) as [->|Hne]; [left; now left |].
  destruct (decide (k = basename src +:+ "_1")) as [->|Hne']; [left; now right |].
  right. tauto.
Qed.

Lemma str_chars_elem (c : ascii) (s : string) :
  c ∈ chars s → String c EmptyString ∈ str_chars s.
Proof.
  unfold chars. induction s as [|c0 s IH]; cbn; intros Hin; [inversion Hin |].
  apply elem_of_cons in Hin as [->|Hin]; [left | right; now apply IH].
Qed.

(** ** EvalHarnessLM, continued *)

Section HarnessExtra.

Context {F : Type} `{FloatOps F}.
Variable generate_fn : @Generator F → list string → Result (@GenOut F).
Variable tokenizer_encode : string → list Z.

Lemma generate_until_outputs
    (requests : list (string * gmap string (@Value F))) (w : World)
    (stops : list string) (gens : list string) (lls : list (list F))
    (greedy : list (list bool)) :
  requests ≠ [] →
  all_dicts_same requests.*2 = true →
  iter_until (dict_get (hd ∅ requests.*2) "until" (VList [])) = Ok stops →
  generate_fn (copy_gen_args (hd ∅ requests.*2) (generator w)) requests.*1
    = Ok (gens, lls, greedy) →
  (generate_until generate_fn requests w).2 = Ok (strip_stops stops <$> gens).
Proof.
  intros Hne Hsame Hstops Hgen.
  rewrite (generate_until_run _ _ _ Hne Hsame). cbn [snd]. rewrite Hgen.
  cbn [rbind fst]. unfold filter_generations.
  destruct gens; [reflexivity |]. now rewrite Hstops.
Qed.

(** X1.  [generate_until] only deletes: every output is a subsequence of
    the raw generation at the same position, hence never longer. *)
Theorem generate_until_only_deletes
    (requests : list (string * gmap string (@Value F))) (w : World)
    (stops : list string) (gens : list string) (lls : list (list F))
    (greedy : list (list bool)) :
  requests ≠ [] →
  all_dicts_same requests.*2 = true →
  iter_until (dict_get (hd ∅ requests.*2) "until" (VList [])) = Ok stops →
  generate_fn (copy_gen_args (hd ∅ requests.*2) (generator w)) requests.*1
    = Ok (gens, lls, greedy) →
  ∃ outs,
    (generate_until generate_fn requests w).2 = Ok outs
    ∧ ∀ i out, outs !! i = Some out →
        ∃ g, gens !! i = Some g
          ∧ chars out `sublist_of` chars g
          ∧ (String.length out ≤ String.length g)%nat.
Proof.
  intros Hne Hsame Hstops Hgen. eexists. split.
  - now apply (generate_until_outputs _ _ stops gens lls greedy).
  - intros i out Hout. rewrite list_lookup_fmap in Hout.
    destruct (gens !! i) as [g|]; [| discriminate]. injection Hout as <-.
    exists g. split; [reflexivity |].
    pose proof (strip_stops_sublist stops g) as Hs. split; [exact Hs |].
    apply sublist_length in Hs. now rewrite !chars_length in Hs.
Qed.

(** X2.  A stop string that is a single character occurs in no output,
    wherever it stands in the stop list. *)
Theorem generate_until_removes_stop_chars
    (requests : list (string * gmap string (@Value F))) (w : World)
    (stops : list string) (gens : list string) (lls : list (list F))
    (greedy : list (list bool)) :
  requests ≠ [] →
  all_dicts_same requests.*2 = true →
  iter_until (dict_get (hd ∅ requests.*2) "until" (VList [])) = Ok stops →
  generate_fn (copy_gen_args (hd ∅ requests.*2) (generator w)) requests.*1
    = Ok (gens, lls, greedy) →
  ∃ outs,
    (generate_until generate_fn requests w).2 = Ok outs
    ∧ ∀ c out, String c EmptyString ∈ stops → out ∈ outs → c ∉ chars out.
Proof.
  intros Hne Hsame Hstops Hgen. eexists. split.
  - now apply (generate_until_outputs _ _ stops gens lls greedy).
  - intros c out Hc Hout. apply list_elem_of_fmap in Hout as (g & -> & _).
    now apply strip_stops_char.
Qed.

(** X3.  When [until] is a plain string rather than a list, the loop
    iterates over its characters: every character of that string is removed
    from every output. *)
Theorem generate_until_str_until
    (requests : list (string * gmap string (@Value F))) (w : World)
    (s : string) (gens : list string) (lls : list (list F))
    (greedy : list (list bool)) :
  requests ≠ [] →
  all_dicts_same requests.*2 = true →
  (hd ∅ requests.*2) !! "until" = Some (VStr s) →
  generate_fn (copy_gen_args (hd ∅ requests.*2) (generator w)) requests.*1
    = Ok (gens, lls, greedy) →
  ∃ outs,
    (generate_until generate_fn requests w).2 = Ok outs
    ∧ length outs = length gens
    ∧ ∀ c out, c ∈ chars s → out ∈ outs → c ∉ chars out.
Proof.
  intros Hne Hsame Hu Hgen.
  assert (Hstops : iter_until (dict_get (hd ∅ requests.*2) "until" (VList []))
                   = Ok (str_chars s)).
  { unfold dict_get. now rewrite Hu. }
  eexists. split; [| split].
  - now apply (generate_until_outputs _ _ (str_chars s) gens lls greedy).
  - now rewrite length_fmap.
  - intros c out Hc Hout. apply list_elem_of_fmap in Hout as (g & -> & _).
    now apply strip_stops_char, str_chars_elem.
Qed.

(** X4.  A generation in which no stop string occurs is returned
    unchanged. *)
Theorem generate_until_keeps_clean
    (requests : list (string * gmap string (@Value F))) (w : World)
    (stops : list string) (gens : list string) (lls : list (list F))
    (greedy : list (list bool)) :
  requests ≠ [] →
  all_dicts_same requests.*2 = true →
  iter_until (dict_get (hd ∅ requests.*2) "until" (VList [])) = Ok stops →
  generate_fn (copy_gen_args (hd ∅ requests.*2) (generator w)) requests.*1
    = Ok (gens, lls, greedy) →
  ∃ outs,
    (generate_until generate_fn requests w).2 = Ok outs
    ∧ ∀ i g, gens !! i = Some g → (∀ e, e ∈ stops → ¬ occurs e g) →
        outs !! i = Some g.
Proof.
  intros Hne Hsame Hstops Hgen. eexists. split.
  - now apply (generate_until_outputs _ _ stops gens lls greedy).
  - intros i g Hg Hno. rewrite list_lookup_fmap, Hg. cbn.
    now rewrite strip_stops_absent.
Qed.

(** X5.  A generation in which the first stop string, a non-empty one,
    occurs comes back strictly shorter. *)
Theorem generate_until_shortens
    (requests : list (string * gmap string (@Value F))) (w : World)
    (c0 : ascii) (e' : string) (es : list string)
    (gens : list string) (lls : list (list F)) (greedy : list (list bool)) :
  requests ≠ [] →
  all_dicts_same requests.*2 = true →
  iter_until (dict_get (hd ∅ requests.*2) "until" (VList []))
    = Ok (String c0 e' :: es) →
  generate_fn (copy_gen_args (hd ∅ requests.*2) (generator w)) requests.*1
    = Ok (gens, lls, greedy) →
  ∃ outs,
    (generate_until generate_fn requests w).2 = Ok outs
    ∧ ∀ i g, gens !! i = Some g → occurs (String c0 e') g →
        ∃ out, outs !! i = Some out
          ∧ (String.length out < String.length g)%nat.
Proof.
  intros Hne Hsame Hstops Hgen. eexists. split.
  - now apply (generate_until_outputs _ _ (String c0 e' :: es) gens lls greedy).
  - intros i g Hg Ho. eexists. split.
    + rewrite list_lookup_fmap, Hg. reflexivity.
    + now apply strip_stops_shorter.
Qed.

(** X6.  When the shared [until] value is neither a list nor a string (for
    instance [None]) and [generate] returns at least one generation,
    [generate_until] raises [TypeError], after [generate] has been called;
    with no generation the value is never iterated and the result is the
    empty list. *)
Theorem generate_until_until_not_iterable
    (requests : list (string * gmap string (@Value F))) (w : World)
    (gens : list string) (lls : list (list F)) (greedy : list (list bool)) :
  requests ≠ [] →
  all_dicts_same requests.*2 = true →
  (∀ l, dict_get (hd ∅ requests.*2) "until" (VList []) ≠ VList l) →
  (∀ s, dict_get (hd ∅ requests.*2) "until" (VList []) ≠ VStr s) →
  generate_fn (copy_gen_args (hd ∅ requests.*2) (generator w)) requests.*1
    = Ok (gens, lls, greedy) →
  let run := generate_until generate_fn requests w in
  length (calls run.1) = S (length (calls w))
  ∧ (gens ≠ [] → run.2 = Raise TypeError)
  ∧ (gens = [] → run.2 = Ok []).
Proof.
  intros Hne Hsame Hl Hs Hgen. cbv zeta.
  rewrite (generate_until_run _ _ _ Hne Hsame). cbn [fst snd calls].
  rewrite Hgen. cbn [rbind fst]. split; [| split].
  - rewrite length_app. cbn. lia.
  - intros Hg. unfold filter_generations. destruct gens; [congruence |].
    destruct (dict_get _ _ _) as [|x|s0|l0]; try reflexivity.
    + now destruct (Hs s0).
    + now destruct (Hl l0).
  - now intros ->.
Qed.

(** X7.  [generate_until] never changes [max_gen_len], on any path, and it
    calls [generate] at most once. *)
Theorem generate_until_keeps_max_gen_len
    (requests : list (string * gmap string (@Value F))) (w : World) :
  let w' := (generate_until generate_fn requests w).1 in
  max_gen_len (generator w') = max_gen_len (generator w)
  ∧ (calls w' = calls w ∨ ∃ call, calls w' = calls w ++ [call]).
Proof.
  cbv zeta. destruct requests as [|r rs] eqn:Hreq; [split; [reflexivity | now left] |].
  rewrite <- Hreq. assert (Hne : requests ≠ []) by (rewrite Hreq; discriminate).
  destruct (all_dicts_same requests.*2) eqn:Hsame.
  - rewrite (generate_until_run _ _ _ Hne Hsame). cbn [fst generator calls].
    split; [reflexivity | right; eauto].
  - rewrite (generate_until_differ _ _ _ Hsame). split; [reflexivity | now left].
Qed.

End HarnessExtra.

Section HarnessExtra2.

Context {F : Type} `{FloatOps F}.
Variable generate_fn : @Generator F → list string → Result (@GenOut F).
Variable tokenizer_encode : string → list Z.

(** X8.  Although [all_dicts_same] compares every dict with the first one,
    its result depends only on which dicts occur in the list, not on their
    order or multiplicity. *)
Theorem all_dicts_same_order_free (l l' : list (gmap string (@Value F))) :
  (∀ d, d ∈ l ↔ d ∈ l') →
  all_dicts_same l = all_dicts_same l'.
Proof.
  intros Hiff.
  destruct (all_dicts_same l) eqn:Hl, (all_dicts_same l') eqn:Hl'; try reflexivity.
  - rewrite <- Hl'. symmetry. apply all_dicts_same_spec. intros d1 d2 H1 H2.
    apply (proj1 (all_dicts_same_spec l) Hl); now apply Hiff.
  - rewrite <- Hl. apply all_dicts_same_spec. intros d1 d2 H1 H2.
    apply (proj1 (all_dicts_same_spec l') Hl'); now apply Hiff.
Qed.

(** X9.  [loglikelihood] and [loglikelihood_rolling] never change the
    sampling attributes (temperature, top_p, top_k, until), on any path;
    they call [generate] at most once, and that call sees [max_gen_len = 1]
    and the caller's sampling attributes. *)
Theorem loglikelihood_frame
    (requests : list (string * string)) (docs : list string) (w : World) :
  let frame (w' : World) :=
    same_sampling (generator w') (generator w)
    ∧ (calls w' = calls w
       ∨ ∃ call, calls w' = calls w ++ [call]
           ∧ max_gen_len (call_config call) = 1
           ∧ same_sampling (call_config call) (generator w)) in
  frame (loglikelihood generate_fn tokenizer_encode requests w).1
  ∧ frame (loglikelihood_rolling generate_fn docs w).1.
Proof.
  cbv zeta. unfold same_sampling. split.
  - destruct requests as [|r rs]; [cbn; tauto |].
    rewrite loglikelihood_run. cbv zeta.
    destruct (generate_fn _ _) as [[[gens lls] greedy]|e]; cbn [fst generator calls];
      (split; [cbn; tauto | right; eexists; split; [reflexivity | cbn; tauto]]).
  - rewrite loglikelihood_rolling_run. cbv zeta.
    destruct (generate_fn _ _) as [[[gens lls] greedy]|e]; cbn [fst generator calls];
      (split; [cbn; tauto | right; eexists; split; [reflexivity | cbn; tauto]]).
Qed.

(** X10.  On an empty request list [loglikelihood] raises [ValueError]
    before it touches the generator, while [loglikelihood_rolling] still
    lowers [max_gen_len] and calls [generate], on no input. *)
Theorem loglikelihood_empty_requests (w : World) :
  loglikelihood generate_fn tokenizer_encode [] w = (w, Raise ValueError)
  ∧ calls (loglikelihood_rolling generate_fn [] w).1
    = calls w ++ [{| call_config := set_max_gen_len 1 (generator w);
                     call_inputs := [] |}].
Proof.
  split; [reflexivity |]. rewrite loglikelihood_rolling_run. cbv zeta.
  now destruct (generate_fn _ _) as [[[gens lls] greedy]|e].
Qed.

(** X11.  The results follow what [generate] returns, not the requests:
    [loglikelihood] returns as many results as the shortest of the request
    list and the two tensor lists, [loglikelihood_rolling] as many as there
    are log-likelihood tensors. *)
Theorem loglikelihood_truncates
    (requests : list (string * string)) (docs : list string) (w : World)
    (gens gens' : list string) (lls lls' : list (list F))
    (greedy greedy' : list (list bool)) :
  requests ≠ [] →
  generate_fn (set_max_gen_len 1 (generator w))
    ((fun req => req.1 +:+ req.2) <$> requests) = Ok (gens, lls, greedy) →
  generate_fn (set_max_gen_len 1 (generator w)) docs = Ok (gens', lls', greedy') →
  (∃ results,
     (loglikelihood generate_fn tokenizer_encode requests w).2 = Ok results
     ∧ length results
       = (length requests `min` (length lls `min` length greedy))%nat)
  ∧ (∃ results,
       (loglikelihood_rolling generate_fn docs w).2 = Ok results
       ∧ length results = length lls').
Proof.
  intros Hne Hgen Hgen'. split.
  - destruct requests as [|r rs]; [congruence |].
    rewrite loglikelihood_run. cbv zeta. rewrite Hgen. eexists. split; [reflexivity |].
    rewrite length_fmap, !length_zip_with, length_fmap. lia.
  - rewrite loglikelihood_rolling_run. cbv zeta. rewrite Hgen'.
    eexists. split; [reflexivity |]. now rewrite length_fmap.
Qed.

(** X12.  When the tokenized context is at least as long as the tensors
    that [generate] returns for a request, the continuation slice is empty:
    the result is the sum of the empty tensor and the greedy flag [True]. *)
Theorem loglikelihood_context_covers_sequence
    (requests : list (string * string)) (w : World)
    (gens : list string) (lls : list (list F)) (greedy : list (list bool))
    (i : nat) (ctx cont : string) (ll : list F) (gr : list bool) :
  generate_fn (set_max_gen_len 1 (generator w))
    ((fun req => req.1 +:+ req.2) <$> requests) = Ok (gens, lls, greedy) →
  requests !! i = Some (ctx, cont) →
  lls !! i = Some ll →
  greedy !! i = Some gr →
  (length ll ≤ length (tokenizer_encode ctx))%nat →
  (length gr ≤ length (tokenizer_encode ctx))%nat →
  ∃ results,
    (loglikelihood generate_fn tokenizer_encode requests w).2 = Ok results
    ∧ results !! i = Some (PyTuple [PyFloat (tsum []); PyBool true]).
Proof.
  intros Hgen Hreq Hll Hgr Hlen Hlen'.
  destruct requests as [|r rs]; [discriminate |].
  rewrite loglikelihood_run. cbv zeta. rewrite Hgen. eexists. split; [reflexivity |].
  rewrite list_lookup_fmap, !lookup_zip_with, list_lookup_fmap, Hreq, Hll, Hgr.
  cbn. unfold ll_result. now rewrite !drop_ge by assumption.
Qed.

End HarnessExtra2.

(** ** eval_ppl_on_path and eval_on_val, continued *)

Lemma mask_sum_zero (m : list (list bool)) :
  (∀ row b, row ∈ m → b ∈ row → b = false) → mask_sum m = 0.
Proof.
  intros Hall. unfold mask_sum.
  assert (Hnil : ∀ l : list bool,
             (∀ b, b ∈ l → b = false) → filter (fun b => b = true) l = []).
  { induction l as [|b l IH]; intros Hl; [reflexivity |].
    rewrite filter_cons_False.
    - apply IH. intros b' Hb'. apply Hl. now right.
    - rewrite (Hl b) by left. discriminate. }
  rewrite Hnil; [reflexivity |].
  intros b Hb. apply list_elem_of_In, in_concat in Hb as (row & Hrow & Hb).
  apply (Hall row b); now apply list_elem_of_In.
Qed.

Lemma dict_set_keys {V} (k : string) (v : V) (d : list (string * V)) :
  (dict_set k v d).*1 = if decide (k ∈ d.*1) then d.*1 else d.*1 ++ [k].
Proof.
  induction d as [|[k' v'] d IH]; [reflexivity |].
  cbn [dict_set]. case_bool_decide as Hk.
  - subst k'. rewrite !fmap_cons. cbn [fst].
    rewrite decide_True by left. reflexivity.
  - rewrite !fmap_cons, IH. cbn [fst].
    destruct (decide (k ∈ d.*1)) as [Hin|Hin].
    + rewrite decide_True by now right. reflexivity.
    + rewrite decide_False; [reflexivity |].
      intros Hc. apply elem_of_cons in Hc as [->|Hc]; [now apply Hk | now apply Hin].
Qed.

Lemma dict_set_values {V} (f : string → V) (k : string) (d : list (string * V)) :
  (∀ p v, (p, v) ∈ d → v = f p) →
  ∀ p v, (p, v) ∈ dict_set k (f k) d → v = f p.
Proof.
  induction d as [|[k' v'] d IH]; intros Hd p v Hin.
  - cbn in Hin. apply list_elem_of_singleton in Hin. now injection Hin as -> ->.
  - cbn [dict_set] in Hin. case_bool_decide as Hk.
    + apply elem_of_cons in Hin as [Heq|Hin]; [now injection Heq as -> -> |].
      apply Hd. now right.
    + apply elem_of_cons in Hin as [Heq|Hin].
      * injection Heq as -> ->. apply Hd. left.
      * apply IH; [| exact Hin]. intros p' v'' Hp'. apply Hd. now right.
Qed.

Lemma first_seen_elem (seen l : list string) (p : string) :
  p ∈ first_seen seen l ↔ p ∈ l ∧ p ∉ seen.
Proof.
  revert seen. induction l as [|x rest IH]; intros seen; cbn [first_seen].
  - rewrite !elem_of_nil. tauto.
  - destruct (decide (x ∈ seen)) as [Hx|Hx].
    + rewrite IH, elem_of_cons. split; [tauto |].
      intros [[->|Hp] Hns]; tauto.
    + rewrite !elem_of_cons, IH, elem_of_app, list_elem_of_singleton.
      destruct (decide (p = x)) as [->|Hne]; tauto.
Qed.

Lemma first_seen_NoDup (seen l : list string) : NoDup (first_seen seen l).
Proof.
  revert seen. induction l as [|x rest IH]; intros seen; cbn [first_seen].
  - constructor.
  - destruct (decide (x ∈ seen)) as [Hx|Hx]; [apply IH |].
    constructor; [| apply IH].
    rewrite first_seen_elem, elem_of_app, list_elem_of_singleton. tauto.
Qed.

(** In [first_seen seen l], [p] stands before [q] only when the first
    occurrence of [p] in [l] is before every occurrence of [q]. *)
Lemma first_seen_order (seen l : list string) (i j : nat) (p q : string) :
  first_seen seen l !! i = Some p →
  first_seen seen l !! j = Some q →
  (i < j)%nat →
  ∃ i', l !! i' = Some p
    ∧ (∀ k, (k < i')%nat → l !! k ≠ Some p)
    ∧ (∀ j', l !! j' = Some q → (i' < j')%nat).
Proof.
  revert seen i j. induction l as [|x rest IH]; intros seen i j Hi Hj Hlt;
    cbn [first_seen] in Hi, Hj; [discriminate |].
  destruct (decide (x ∈ seen)) as [Hx|Hx].
  - assert (Hp : p ≠ x).
    { intros ->. apply list_elem_of_lookup_2, first_seen_elem in Hi. tauto. }
    assert (Hq : q ≠ x).
    { intros ->. apply list_elem_of_lookup_2, first_seen_elem in Hj. tauto. }
    destruct (IH seen i j Hi Hj Hlt) as (i' & Hi' & Hfirst & Hafter).
    exists (S i'). split; [exact Hi' |]. split.
    + intros [|k] Hk; cbn; [congruence | apply Hfirst; lia].
    + intros [|j'] Hj'; cbn in Hj'; [congruence |].
      apply Hafter in Hj'. lia.
  - destruct j as [|j]; [lia |]. cbn in Hj.
    assert (Hq : q ≠ x).
    { intros ->. apply list_elem_of_lookup_2, first_seen_elem in Hj.
      rewrite elem_of_app, list_elem_of_singleton in Hj. tauto. }
    destruct i as [|i]; cbn in Hi.
    + injection Hi as <-. exists 0%nat. split; [reflexivity |]. split.
      * intros k Hk. lia.
      * intros [|j'] Hj'; cbn in Hj'; [congruence | lia].
    + assert (Hp : p ≠ x).
      { intros ->. apply list_elem_of_lookup_2, first_seen_elem in Hi.
        rewrite elem_of_app, list_elem_of_singleton in Hi. tauto. }
      destruct (IH (seen ++ [x]) i j Hi Hj ltac:(lia)) as (i' & Hi' & Hfirst & Hafter).
      exists (S i'). split; [exact Hi' |]. split.
      * intros [|k] Hk; cbn; [congruence | apply Hfirst; lia].
      * intros [|j'] Hj'; cbn in Hj'; [congruence |].
        apply Hafter in Hj'. lia.
Qed.

Section DriverExtra.

Context {F : Type} `{FloatOps F}.
Context {Model Logits Tokenizer GeneratorArgs : Type}.
Variable generate_fn : @Generator F → list string → Result (@GenOut F).
Variable get_output_seq_len : Model → Z.
Variable model_forward : Model → list (list Z) → Logits.
Variable cross_entropy_sum : Logits → list (list Z) → F.
Variable boe_id : TokenizerArgs → Z.
Variable find_and_sanitize_chunks : string → Z → string → option string → list string.
Variable create_iter : PackingIterator → list Batch.
Variable arrow_texts : DocIterator → list string.
Variable dist_mean_dict : gmap string (@Num F) → gmap string (@Num F).
Variable new_generator : GeneratorArgs → Model → Tokenizer → @Generator F.
Variable CONSOLIDATE_FOLDER : string.

Local Abbreviation ppl_pipeline' := (ppl_pipeline get_output_seq_len boe_id).
Local Abbreviation eval_ppl_on_path' :=
  (eval_ppl_on_path get_output_seq_len model_forward cross_entropy_sum boe_id
     find_and_sanitize_chunks create_iter).

(** X13.  With its one chunk found and an empty batch stream,
    [eval_ppl_on_path] returns [n_bytes = 0], [loss_sum = 0.0] and
    [ppl = 0.0] whatever the tokenizer family: an unsupported family is
    only detected when a batch arrives. *)
Theorem eval_ppl_on_path_empty_stream
    (model : Model) (tokenizer_args : TokenizerArgs) (patcher_args : PatcherArgs)
    (add_patches : bool) (path : string) (batch_size arrow_batch_size : Z)
    (max_n_docs : option Z) (s3_profile : option string) (chunk : string) :
  find_and_sanitize_chunks path 1 "*.val.jsonl" s3_profile = [chunk] →
  create_iter (ppl_pipeline' model tokenizer_args patcher_args add_patches chunk
                 batch_size arrow_batch_size max_n_docs s3_profile) = [] →
  eval_ppl_on_path' model tokenizer_args patcher_args add_patches path
    batch_size arrow_batch_size max_n_docs s3_profile
  = Ok {| n_bytes := 0; loss_sum := fzero; ppl := fzero |}.
Proof.
  intros Hchunks Hbatches. unfold eval_ppl_on_path. rewrite Hchunks.
  rewrite bool_decide_eq_true_2 by reflexivity. now rewrite Hbatches.
Qed.

(** X14.  When every batch carries a mask without a real position, the
    byte count is zero and [ppl] is the fallback [0.0], although the summed
    loss of the batches is still accumulated into [loss_sum]. *)
Theorem eval_ppl_on_path_all_masked
    (model : Model) (tokenizer_args : TokenizerArgs) (patcher_args : PatcherArgs)
    (add_patches : bool) (path : string) (batch_size arrow_batch_size : Z)
    (max_n_docs : option Z) (s3_profile : option string) (chunk : string) :
  tokenizer_name tokenizer_args ∈ ["bytes"; "blt"] →
  find_and_sanitize_chunks path 1 "*.val.jsonl" s3_profile = [chunk] →
  let batches :=
    create_iter (ppl_pipeline' model tokenizer_args patcher_args add_patches chunk
                   batch_size arrow_batch_size max_n_docs s3_profile) in
  (∀ b, b ∈ batches →
     ∃ mask, batch_mask b = Some mask
       ∧ ∀ row x, row ∈ mask → x ∈ row → x = false) →
  eval_ppl_on_path' model tokenizer_args patcher_args add_patches path
    batch_size arrow_batch_size max_n_docs s3_profile
  = Ok {| n_bytes := 0;
          loss_sum :=
            fold_left (fun acc b =>
              fadd acc (cross_entropy_sum (model_forward model (batch_x b))
                          (batch_y b))) batches fzero;
          ppl := fzero |}.
Proof.
  intros Hname Hchunks. cbv zeta. intros Hmasked.
  assert (Hs : supported_tokenizer (tokenizer_name tokenizer_args) = true)
    by now apply bool_decide_eq_true_2.
  unfold eval_ppl_on_path. rewrite Hchunks.
  rewrite bool_decide_eq_true_2 by reflexivity.
  rewrite (loss_loop_supported _ _ _ _ _ _ _ Hs).
  match goal with
  | |- context [fold_left ?f ?l 0] =>
      assert (Hnb : ∀ nb, fold_left f l nb = nb); [| rewrite (Hnb 0)]
  end.
  { revert Hmasked. generalize (create_iter
      (ppl_pipeline' model tokenizer_args patcher_args add_patches chunk
         batch_size arrow_batch_size max_n_docs s3_profile)).
    intros bs. induction bs as [|b bs IH]; intros Hm nb; [reflexivity |].
    cbn [fold_left]. rewrite IH by (intros b' Hb'; apply Hm; now right).
    destruct (Hm b ltac:(left)) as (mask & -> & Hrows).
    rewrite (mask_sum_zero mask Hrows). lia. }
  reflexivity.
Qed.

(** X15.  When the byte count is positive and [math.exp] overflows on
    [loss_sum / n_bytes], [eval_ppl_on_path] raises [OverflowError] instead
    of returning a mapping. *)
Theorem eval_ppl_on_path_overflow
    (model : Model) (tokenizer_args : TokenizerArgs) (patcher_args : PatcherArgs)
    (add_patches : bool) (path : string) (batch_size arrow_batch_size : Z)
    (max_n_docs : option Z) (s3_profile : option string) (chunk : string) :
  tokenizer_name tokenizer_args ∈ ["bytes"; "blt"] →
  find_and_sanitize_chunks path 1 "*.val.jsonl" s3_profile = [chunk] →
  let batches :=
    create_iter (ppl_pipeline' model tokenizer_args patcher_args add_patches chunk
                   batch_size arrow_batch_size max_n_docs s3_profile) in
  let total :=
    fold_left (fun acc b =>
      fadd acc (cross_entropy_sum (model_forward model (batch_x b)) (batch_y b)))
      batches fzero in
  let nb :=
    fold_left (fun acc b =>
      acc + match batch_mask b with
            | None => numel (batch_y b)
            | Some mask => mask_sum mask
            end) batches 0 in
  0 < nb →
  math_exp (fdiv total (of_int nb)) = None →
  eval_ppl_on_path' model tokenizer_args patcher_args add_patches path
    batch_size arrow_batch_size max_n_docs s3_profile
  = Raise OverflowError.
Proof.
  intros Hname Hchunks. cbv zeta. intros Hpos Hexp.
  assert (Hs : supported_tokenizer (tokenizer_name tokenizer_args) = true)
    by now apply bool_decide_eq_true_2.
  unfold eval_ppl_on_path. rewrite Hchunks.
  rewrite bool_decide_eq_true_2 by reflexivity.
  rewrite (loss_loop_supported _ _ _ _ _ _ _ Hs).
  unfold perplexity. apply Z.ltb_lt in Hpos. now rewrite Hpos, Hexp.
Qed.

Local Abbreviation build_path_to_iter' := (build_path_to_iter find_and_sanitize_chunks).
Local Abbreviation source_metrics' := (source_metrics generate_fn arrow_texts dist_mean_dict).
Local Abbreviation source_result' := (source_result generate_fn arrow_texts dist_mean_dict).
Local Abbreviation val_loop' := (val_loop generate_fn arrow_texts dist_mean_dict).
Local Abbreviation eval_on_val' :=
  (eval_on_val generate_fn find_and_sanitize_chunks arrow_texts dist_mean_dict).
Local Abbreviation iter_of train_cfg p :=
  (val_iterator train_cfg
     (hd "" (find_and_sanitize_chunks p 1 "*.val.jsonl"
               (data_s3_profile (data train_cfg))))).
Local Abbreviation val_call cfg train_cfg p :=
  {| call_config := cfg; call_inputs := arrow_texts (iter_of train_cfg p) |}.

Lemma set_max_gen_len_restore (g : @Generator F) :
  set_max_gen_len (max_gen_len g) (set_max_gen_len 1 g) = g.
Proof. now destruct g. Qed.

Lemma eval_on_val_run (val_args : ValidationArgs) (train_cfg : TrainArgs) (w : World) :
  eval_on_val' val_args train_cfg w =
    match build_path_to_iter' train_cfg (val_srcs val_args train_cfg) [] with
    | Raise e => (w, Raise e)
    | Ok items =>
        match val_loop' items ∅
                {| generator := set_max_gen_len 1 (generator w); calls := calls w |} with
        | (w2, Ok all_val_metrics) =>
            ({| generator := set_max_gen_len (max_gen_len (generator w)) (generator w2);
                calls := calls w2 |}, Ok all_val_metrics)
        | (w2, Raise e) => (w2, Raise e)
        end
    end.
Proof.
  unfold eval_on_val, bind, lift, get_generator, put_generator, ret.
  destruct (build_path_to_iter' _ _ _) as [items|e]; [| reflexivity].
  cbn [generator calls]. now destruct (val_loop' _ _ _) as [w2 [all|e]].
Qed.

Lemma pairs_of_keys {V} (f : string → V) (l : list (string * V)) :
  (∀ p v, (p, v) ∈ l → v = f p) → l = (fun p => (p, f p)) <$> l.*1.
Proof.
  induction l as [|[p v] l IH]; intros Hl; [reflexivity |].
  rewrite !fmap_cons. cbn [fst]. rewrite (Hl p v) by left. f_equal.
  apply IH. intros p' v' Hin. apply Hl. now right.
Qed.

Lemma build_path_to_iter_keys (train_cfg : TrainArgs) (srcs : list string)
    (acc items : list (string * DocIterator)) :
  build_path_to_iter' train_cfg srcs acc = Ok items →
  NoDup acc.*1 →
  (∀ p v, (p, v) ∈ acc → v = iter_of train_cfg p) →
  NoDup items.*1
  ∧ (∀ p, p ∈ items.*1 ↔ p ∈ acc.*1 ∨ p ∈ srcs)
  ∧ (∃ k, items.*1 = acc.*1 ++ k ∧ k `sublist_of` srcs)
  ∧ (∀ p v, (p, v) ∈ items → v = iter_of train_cfg p).
Proof.
  revert acc. induction srcs as [|p rest IH]; intros acc Hb Hnd Hvals.
  - cbn in Hb. injection Hb as <-. repeat split; try assumption.
    + intros Hp. now left.
    + intros [Hp|Hp]; [exact Hp | inversion Hp].
    + exists []. now rewrite app_nil_r.
  - cbn [build_path_to_iter] in Hb.
    case_bool_decide as Hlen; [| discriminate].
    destruct (find_and_sanitize_chunks p _ _ _) as [|chunk cs] eqn:Hfind;
      [discriminate |].
    assert (Hit : val_iterator train_cfg chunk = iter_of train_cfg p)
      by now rewrite Hfind.
    rewrite Hit in Hb.
    pose proof (dict_set_keys p (iter_of train_cfg p) acc) as Hkeys.
    apply IH in Hb as (Hnd' & Hmem & (k & Hk & Hsub) & Hvals').
    + split; [exact Hnd' |]. split; [| split; [| exact Hvals']].
      * intros q. rewrite Hmem, Hkeys.
        destruct (decide (p ∈ acc.*1)) as [Hin|Hin].
        -- rewrite elem_of_cons. split; [tauto |].
           intros [Hq|[->|Hq]]; tauto.
        -- rewrite elem_of_app, list_elem_of_singleton, elem_of_cons. tauto.
      * rewrite Hkeys in Hk. destruct (decide (p ∈ acc.*1)) as [Hin|Hin].
        -- exists k. split; [exact Hk | now apply sublist_cons].
        -- exists (p :: k). rewrite Hk, <- app_assoc. split; [reflexivity |].
           now apply sublist_skip.
    + rewrite Hkeys. destruct (decide (p ∈ acc.*1)) as [Hin|Hin]; [exact Hnd |].
      apply NoDup_app. split; [exact Hnd |]. split; [| apply NoDup_singleton].
      intros q Hq Hq'. apply list_elem_of_singleton in Hq'. now subst q.
    + exact (dict_set_values (fun q => iter_of train_cfg q) p acc Hvals).
Qed.

Lemma val_loop_calls (items : list (string * DocIterator))
    (all_val_metrics res : gmap string (gmap string (@Num F))) (w w' : World) :
  val_loop' items all_val_metrics w = (w', Ok res) →
  calls w' = calls w
    ++ ((fun it => {| call_config := generator w; call_inputs := arrow_texts it |})
          <$> items.*2).
Proof.
  revert all_val_metrics w.
  induction items as [|[src it] rest IH]; intros all_val_metrics w Hrun.
  - cbn in Hrun. injection Hrun as <- _. now rewrite app_nil_r.
  - rewrite val_loop_cons in Hrun. cbv zeta in Hrun.
    destruct (source_result' _ _) as [m|]; [| discriminate].
    apply IH in Hrun. rewrite Hrun, source_metrics_run. cbn [fst calls generator].
    rewrite !fmap_cons, <- app_assoc. reflexivity.
Qed.

(** X16.  When [eval_on_val] returns, the generator is exactly as before
    the call.  When every source has its one chunk and the call raises
    (because [generate] or the metrics of a source raise), [max_gen_len] is
    left at 1 and the sampling attributes are unchanged. *)
Theorem eval_on_val_restores
    (val_args : ValidationArgs) (train_cfg : TrainArgs) (w : World) :
  (∀ w' res,
     eval_on_val' val_args train_cfg w = (w', Ok res) → generator w' = generator w)
  ∧ (∀ w' e,
     (∀ q, q ∈ val_srcs val_args train_cfg →
        length (find_and_sanitize_chunks q 1 "*.val.jsonl"
                  (data_s3_profile (data train_cfg))) = 1%nat) →
     eval_on_val' val_args train_cfg w = (w', Raise e) →
     generator w' = set_max_gen_len 1 (generator w)).
Proof.
  split.
  - intros w' res. rewrite eval_on_val_run.
    destruct (build_path_to_iter' _ _ _) as [items|e]; [| discriminate].
    pose proof (val_loop_generator generate_fn arrow_texts dist_mean_dict items ∅
                  {| generator := set_max_gen_len 1 (generator w); calls := calls w |})
      as Hgen.
    destruct (val_loop' _ _ _) as [w2 [all|e]]; [| discriminate].
    intros Hrun. injection Hrun as <- _. cbn [fst generator] in *.
    rewrite Hgen. apply set_max_gen_len_restore.
  - intros w' e Hone. rewrite eval_on_val_run.
    destruct (build_path_to_iter_returns find_and_sanitize_chunks train_cfg
                (val_srcs val_args train_cfg) [] Hone) as [items ->].
    pose proof (val_loop_generator generate_fn arrow_texts dist_mean_dict items ∅
                  {| generator := set_max_gen_len 1 (generator w); calls := calls w |})
      as Hgen.
    destruct (val_loop' _ _ _) as [w2 [all|e']]; [discriminate |].
    intros Hrun. injection Hrun as <- _. exact Hgen.
Qed.

Lemma build_path_to_iter_order (train_cfg : TrainArgs) (srcs : list string)
    (acc items : list (string * DocIterator)) :
  build_path_to_iter' train_cfg srcs acc = Ok items →
  items.*1 = acc.*1 ++ first_seen acc.*1 srcs.
Proof.
  revert acc. induction srcs as [|p rest IH]; intros acc Hb.
  - cbn in Hb. injection Hb as <-. cbn [first_seen]. now rewrite app_nil_r.
  - cbn [build_path_to_iter] in Hb.
    case_bool_decide as Hlen; [| discriminate].
    destruct (find_and_sanitize_chunks p _ _ _) as [|chunk cs]; [discriminate |].
    apply IH in Hb. rewrite Hb, dict_set_keys. cbn [first_seen].
    destruct (decide (p ∈ acc.*1)); [reflexivity |].
    now rewrite <- app_assoc.
Qed.

(** X17.  When [eval_on_val] returns, it has called [generate] exactly once
    per distinct source path, in the order of first appearance, each time
    with [max_gen_len = 1] and the texts of that source: a path that is
    listed twice is evaluated once, at the place of its first listing.
    The paths of the calls are [first_seen [] srcs]: each source path
    exactly once, and [p] before [q] only when the first listing of [p]
    comes before every listing of [q]. *)
Theorem eval_on_val_one_call_per_path
    (val_args : ValidationArgs) (train_cfg : TrainArgs) (w w' : World)
    (res : gmap string (gmap string (@Num F))) :
  eval_on_val' val_args train_cfg w = (w', Ok res) →
  let srcs := val_srcs val_args train_cfg in
  let paths := first_seen [] srcs in
  calls w'
  = calls w
    ++ ((fun p => val_call (set_max_gen_len 1 (generator w)) train_cfg p) <$> paths)
  ∧ NoDup paths
  ∧ (∀ p, p ∈ paths ↔ p ∈ srcs)
  ∧ (∀ i j p q,
       paths !! i = Some p → paths !! j = Some q → (i < j)%nat →
       ∃ i', srcs !! i' = Some p
         ∧ (∀ k, (k < i')%nat → srcs !! k ≠ Some p)
         ∧ (∀ j', srcs !! j' = Some q → (i' < j')%nat)).
Proof.
  rewrite eval_on_val_run. cbv zeta.
  destruct (build_path_to_iter' _ _ _) as [items|e] eqn:Hb; [| discriminate].
  destruct (val_loop' _ _ _) as [w2 [all|e]] eqn:Hloop; [| discriminate].
  intros Hrun. injection Hrun as <- _.
  pose proof (build_path_to_iter_order _ _ _ _ Hb) as Hkeys. cbn in Hkeys.
  apply build_path_to_iter_keys in Hb as (_ & _ & _ & Hvals);
    [| constructor | intros p v Hin; inversion Hin].
  split; [| split; [| split]].
  - apply val_loop_calls in Hloop. cbn [calls generator] in *. rewrite Hloop.
    f_equal. rewrite (pairs_of_keys _ _ Hvals) at 1.
    rewrite Hkeys, <- !list_fmap_compose. reflexivity.
  - apply first_seen_NoDup.
  - intros p. rewrite first_seen_elem, elem_of_nil. tauto.
  - intros i j p q. apply first_seen_order.
Qed.

Lemma val_loop_distinct (train_cfg : TrainArgs) (ps : list string)
    (all_val_metrics res : gmap string (gmap string (@Num F))) (w w' : World) :
  val_loop' ((fun p => (p, iter_of train_cfg p)) <$> ps) all_val_metrics w
    = (w', Ok res) →
  NoDup (basename <$> ps) →
  (∀ p, p ∈ ps → all_val_metrics !! basename p = None) →
  (∀ p, p ∈ ps →
     ∃ m, source_result' (generator w) (iter_of train_cfg p) = Ok m
       ∧ res !! basename p = Some m)
  ∧ (∀ k, k ∉ basename <$> ps → res !! k = all_val_metrics !! k).
Proof.
  revert all_val_metrics w.
  induction ps as [|p ps IH]; intros all_val_metrics w Hrun Hnd Hfree.
  - cbn in Hrun. injection Hrun as _ <-. split; [intros p Hp; inversion Hp | easy].
  - rewrite fmap_cons, val_loop_cons in Hrun. cbv zeta in Hrun.
    rewrite fmap_cons in Hnd. apply NoDup_cons in Hnd as [Hp Hnd].
    destruct (source_result' (generator w) (iter_of train_cfg p)) as [m|] eqn:Hm;
      [| discriminate].
    assert (Hstore : store_metrics p m all_val_metrics
                     = <[basename p := m]> all_val_metrics).
    { unfold store_metrics. rewrite (Hfree p) by left.
      rewrite bool_decide_eq_false_2; [reflexivity | now intros [? ?]]. }
    rewrite Hstore in Hrun.
    apply IH in Hrun as [Hmetrics Hothers]; [| exact Hnd |].
    + rewrite source_metrics_run in Hmetrics. cbn [fst generator] in Hmetrics.
      split.
      * intros q Hq. apply elem_of_cons in Hq as [->|Hq]; [| now apply Hmetrics].
        exists m. split; [exact Hm |].
        rewrite (Hothers _ Hp). apply lookup_insert_eq.
      * intros k Hk. rewrite fmap_cons, not_elem_of_cons in Hk.
        destruct Hk as [Hne Hk]. rewrite (Hothers _ Hk).
        now apply lookup_insert_ne.
    + intros q Hq. rewrite lookup_insert_ne; [apply Hfree; now right |].
      intros Heq. apply Hp. rewrite Heq. now apply list_elem_of_fmap_2.
Qed.

(** X18.  When the basenames of the source paths are pairwise distinct,
    no key is renamed: [eval_on_val] returns exactly one entry per source,
    the metrics of each source under its basename. *)
Theorem eval_on_val_distinct_basenames
    (val_args : ValidationArgs) (train_cfg : TrainArgs) (w w' : World)
    (res : gmap string (gmap string (@Num F))) :
  NoDup (basename <$> val_srcs val_args train_cfg) →
  eval_on_val' val_args train_cfg w = (w', Ok res) →
  (∀ p, p ∈ val_srcs val_args train_cfg →
     ∃ m, source_result' (set_max_gen_len 1 (generator w)) (iter_of train_cfg p) = Ok m
       ∧ res !! basename p = Some m)
  ∧ (∀ k, is_Some (res !! k) ↔ k ∈ basename <$> val_srcs val_args train_cfg).
Proof.
  intros Hnd. rewrite eval_on_val_run.
  destruct (build_path_to_iter' _ _ _) as [items|e] eqn:Hb; [| discriminate].
  destruct (val_loop' _ _ _) as [w2 [all|e]] eqn:Hloop; [| discriminate].
  intros Hrun. injection Hrun as _ <-.
  apply build_path_to_iter_nodup in Hb; [| now apply NoDup_fmap_1 in Hnd].
  cbn [app] in Hb. subst items.
  apply val_loop_distinct in Hloop as [Hmetrics Hothers];
    [| exact Hnd | intros; apply lookup_empty].
  split; [exact Hmetrics |].
  intros k. split.
  - intros Hsome. destruct (decide (k ∈ basename <$> val_srcs val_args train_cfg))
      as [Hin|Hin]; [exact Hin |].
    rewrite (Hothers _ Hin), lookup_empty in Hsome. now destruct Hsome.
  - intros Hk. apply list_elem_of_fmap in Hk as (p & -> & Hp).
    destruct (Hmetrics p Hp) as (m & _ & ->). now eexists.
Qed.

Lemma val_loop_keys (items : list (string * DocIterator))
    (all_val_metrics res : gmap string (gmap string (@Num F))) (w w' : World)
    (k : string) :
  val_loop' items all_val_metrics w = (w', Ok res) →
  is_Some (res !! k) →
  is_Some (all_val_metrics !! k) ∨ ∃ p, p ∈ items.*1 ∧ writes_key p k.
Proof.
  revert all_val_metrics w.
  induction items as [|[src it] rest IH]; intros all_val_metrics w Hrun Hk.
  - cbn in Hrun. injection Hrun as _ <-. now left.
  - rewrite val_loop_cons in Hrun. cbv zeta in Hrun.
    destruct (source_result' _ _) as [m|]; [| discriminate].
    destruct (IH _ _ Hrun Hk) as [Hstore|(p & Hp & Hw)].
    + destruct (classic_writes src k) as [Hw|Hw].
      * right. exists src. split; [rewrite fmap_cons; left | exact Hw].
      * left. now rewrite store_metrics_other in Hstore.
    + right. exists p. split; [rewrite fmap_cons; now right | exact Hw].
Qed.

(** X19.  Every key of the mapping that [eval_on_val] returns is the
    basename of one of the source paths, or such a basename followed by
    [_1]; so there are never more entries than sources. *)
Theorem eval_on_val_keys
    (val_args : ValidationArgs) (train_cfg : TrainArgs) (w w' : World)
    (res : gmap string (gmap string (@Num F))) (k : string) :
  eval_on_val' val_args train_cfg w = (w', Ok res) →
  is_Some (res !! k) →
  ∃ p, p ∈ val_srcs val_args train_cfg
    ∧ (k = basename p ∨ k = basename p +:+ "_1").
Proof.
  rewrite eval_on_val_run.
  destruct (build_path_to_iter' _ _ _) as [items|e] eqn:Hb; [| discriminate].
  destruct (val_loop' _ _ _) as [w2 [all|e]] eqn:Hloop; [| discriminate].
  intros Hrun Hk. injection Hrun as _ <-.
  apply build_path_to_iter_keys in Hb as (_ & Hmem & _);
    [| constructor | intros p v Hin; inversion Hin].
  destruct (val_loop_keys _ _ _ _ _ _ Hloop Hk) as [Hempty|(p & Hp & Hw)].
  - rewrite lookup_empty in Hempty. now destruct Hempty.
  - exists p. split; [| exact Hw].
    apply Hmem in Hp as [Hp|Hp]; [inversion Hp | exact Hp].
Qed.

Lemma val_loop_keeps_taken (n : string) (m : gmap string (@Num F))
    (items : list (string * DocIterator))
    (all_val_metrics res : gmap string (gmap string (@Num F))) (w w' : World) :
  all_val_metrics !! n = Some m →
  (∀ q, q ∈ items.*1 → basename q = n ∨ ¬ writes_key q n) →
  val_loop' items all_val_metrics w = (w', Ok res) →
  res !! n = Some m.
Proof.
  revert all_val_metrics w.
  induction items as [|[src it] rest IH]; intros all_val_metrics w Hn Hq Hrun.
  - cbn in Hrun. now injection Hrun as _ <-.
  - rewrite val_loop_cons in Hrun. cbv zeta in Hrun.
    destruct (source_result' _ _) as [mq|]; [| discriminate].
    apply IH in Hrun; [exact Hrun | | intros q Hin; apply Hq; rewrite fmap_cons; now right].
    destruct (Hq src ltac:(rewrite fmap_cons; left)) as [Hb|Hw].
    + unfold store_metrics. rewrite Hb, Hn.
      rewrite bool_decide_eq_true_2 by now eexists.
      rewrite lookup_insert_ne; [exact Hn |].
      intros Heq. now apply (append_suffix_ne n).
    + now rewrite store_metrics_other.
Qed.

(** X20.  The renaming uses the single suffix [_1]: when a basename [n] is
    shared by a first source [p1], a last source [pl] and any number of
    sources between them, the mapping that [eval_on_val] returns holds the
    metrics of [p1] under [n] and the metrics of [pl] under [n_1]; each
    source in between has had its entry overwritten. *)
Theorem eval_on_val_last_duplicate_wins
    (val_args : ValidationArgs) (train_cfg : TrainArgs) (w w' : World)
    (res : gmap string (gmap string (@Num F)))
    (pre mid post : list string) (p1 pl n : string) :
  val_srcs val_args train_cfg = pre ++ p1 :: mid ++ pl :: post →
  NoDup (val_srcs val_args train_cfg) →
  basename p1 = n →
  basename pl = n →
  (∀ q, q ∈ pre ++ post → ¬ writes_key q n ∧ ¬ writes_key q (n +:+ "_1")) →
  (∀ q, q ∈ mid → basename q = n ∨ ¬ writes_key q n) →
  eval_on_val' val_args train_cfg w = (w', Ok res) →
  ∃ m1 ml,
    source_result' (set_max_gen_len 1 (generator w)) (iter_of train_cfg p1) = Ok m1
    ∧ source_result' (set_max_gen_len 1 (generator w)) (iter_of train_cfg pl) = Ok ml
    ∧ res !! n = Some m1
    ∧ res !! (n +:+ "_1") = Some ml.
Proof.
  intros Hsrcs Hnd Hn1 Hnl Hk Hmid. rewrite eval_on_val_run.
  destruct (build_path_to_iter' _ _ _) as [items|e] eqn:Hb; [| discriminate].
  apply build_path_to_iter_nodup in Hb; [| exact Hnd]. cbn [app] in Hb.
  set (w1 := {| generator := set_max_gen_len 1 (generator w); calls := calls w |}).
  destruct (val_loop' items ∅ w1) as [w2 [all|e]] eqn:Hloop; [| discriminate].
  intros Hrun. injection Hrun as _ <-.
  rewrite Hsrcs, fmap_app, fmap_cons, fmap_app, fmap_cons in Hb. subst items.
  (* the sources before [p1] *)
  apply val_loop_app in Hloop as (wa & alla & Hpre & Hloop).
  assert (Hga : generator wa = generator w1).
  { match type of Hpre with
    | val_loop ?g ?t ?d ?l ?a ?v = _ =>
        pose proof (val_loop_generator g t d l a v) as Hg
    end.
    now rewrite Hpre in Hg. }
  assert (Han : alla !! n = None).
  { erewrite val_loop_other; [apply lookup_empty | | exact Hpre].
    intros q Hq. rewrite fmap_fst_pair in Hq. apply Hk. rewrite elem_of_app. tauto. }
  (* [p1] *)
  rewrite val_loop_cons in Hloop. cbv zeta in Hloop. rewrite Hga in Hloop.
  destruct (source_result' (generator w1) (iter_of train_cfg p1)) as [m1|] eqn:Hm1;
    [| discriminate].
  assert (Hs1 : store_metrics p1 m1 alla = <[n := m1]> alla).
  { unfold store_metrics. rewrite Hn1, Han.
    rewrite bool_decide_eq_false_2; [reflexivity | now intros [? ?]]. }
  rewrite Hs1 in Hloop.
  (* the sources between [p1] and [pl] *)
  apply val_loop_app in Hloop as (wb & allb & Hbetween & Hloop).
  assert (Hgb : generator wb = generator w1).
  { match type of Hbetween with
    | val_loop ?g ?t ?d ?l ?a ?v = _ =>
        pose proof (val_loop_generator g t d l a v) as Hg
    end.
    rewrite Hbetween, source_metrics_run in Hg. now rewrite <- Hga. }
  assert (Hbn : allb !! n = Some m1).
  { eapply val_loop_keeps_taken; [apply lookup_insert_eq | | exact Hbetween].
    intros q Hq. rewrite fmap_fst_pair in Hq. now apply Hmid. }
  (* [pl] *)
  rewrite val_loop_cons in Hloop. cbv zeta in Hloop. rewrite Hgb in Hloop.
  destruct (source_result' (generator w1) (iter_of train_cfg pl)) as [ml|] eqn:Hml;
    [| discriminate].
  assert (Hs2 : store_metrics pl ml allb = <[n +:+ "_1" := ml]> allb).
  { unfold store_metrics. rewrite Hnl, Hbn.
    rewrite bool_decide_eq_true_2; [reflexivity | now eexists]. }
  rewrite Hs2 in Hloop.
  (* the sources after [pl] *)
  exists m1, ml. split; [exact Hm1 |]. split; [exact Hml |].
  split; (erewrite val_loop_other; [| | exact Hloop]).
  - rewrite lookup_insert_ne; [exact Hbn |].
    intros Heq. now apply (append_suffix_ne n).
  - intros q Hq. rewrite fmap_fst_pair in Hq. apply Hk. rewrite elem_of_app. tauto.
  - apply lookup_insert_eq.
  - intros q Hq. rewrite fmap_fst_pair in Hq. apply Hk. rewrite elem_of_app. tauto.
Qed.

(** *** The metrics of one source *)

Local Abbreviation val_metrics' := (val_metrics dist_mean_dict).
Local Abbreviation appends m kvs :=
  (foldl (fun acc kv => metric_append kv.1 kv.2 acc) m kvs).

Lemma metric_append_lookup (k k' : string) (v : @Num F)
    (m : gmap string (list (@Num F))) :
  metric_append k v m !! k'
  = if decide (k = k') then Some (default [] (m !! k) ++ [v]) else m !! k'.
Proof. unfold metric_append. apply lookup_insert. Qed.

Lemma appends_lookup (k : string) (kvs : list (string * @Num F))
    (m : gmap string (list (@Num F))) :
  appends m kvs !! k
  = match vals_of k kvs with
    | [] => m !! k
    | vs => Some (default [] (m !! k) ++ vs)
    end.
Proof.
  revert m. induction kvs as [|[k0 v0] rest IH]; intros m; [reflexivity |].
  cbn [foldl vals_of fst snd]. rewrite IH, metric_append_lookup.
  destruct (String.eqb_spec k0 k) as [->|Hne].
  - rewrite decide_True by reflexivity.
    destruct (vals_of k rest) as [|v vs]; [reflexivity |].
    cbn [default from_option id]. now rewrite <- app_assoc.
  - now rewrite decide_False by exact Hne.
Qed.

Lemma vals_of_app (k : string) (l1 l2 : list (string * @Num F)) :
  vals_of k (l1 ++ l2) = vals_of k l1 ++ vals_of k l2.
Proof.
  induction l1 as [|[k0 v0] l1 IH]; [reflexivity |].
  cbn [app vals_of]. destruct (String.eqb k0 k); [cbn; now rewrite IH | exact IH].
Qed.

(** The loop of lines 271-277 on documents that are all non-empty. *)
Lemma metrics_loop_returns (texts : list string) (i : nat) (lls : list (list F))
    (m : gmap string (list (@Num F))) :
  (length lls ≤ length (drop i texts))%nat →
  (∀ ll, ll ∈ lls → ll ≠ []) →
  (∀ j t, (j < length lls)%nat → texts !! (i + j)%nat = Some t → t ≠ "") →
  metrics_loop texts i lls m
  = Ok (appends m (concat (zip_with doc_metrics (drop i texts) lls))).
Proof.
  revert i m. induction lls as [|ll lls IH]; intros i m Hlen Hll Ht.
  - now rewrite zip_with_nil_r.
  - cbn [metrics_loop].
    destruct (texts !! i) as [t|] eqn:Hti.
    2:{ apply lookup_ge_None in Hti. rewrite length_drop in Hlen.
        cbn [length] in Hlen. lia. }
    rewrite (drop_S _ _ _ Hti). cbn [zip_with concat].
    assert (Hllne : (Z.of_nat (length ll) =? 0) = false).
    { apply Z.eqb_neq. pose proof (Hll ll ltac:(left)). destruct ll; [congruence |].
      cbn [length]. lia. }
    assert (Htne : (Z.of_nat (String.length t) =? 0) = false).
    { apply Z.eqb_neq. pose proof (Ht 0%nat t ltac:(cbn; lia)) as Hne.
      rewrite Nat.add_0_r in Hne. specialize (Hne Hti).
      destruct t; [congruence |]. cbn [String.length]. lia. }
    unfold truediv_int. rewrite Hllne, Htne. cbn [rbind to_float].
    rewrite IH.
    + rewrite foldl_app. reflexivity.
    + rewrite (drop_S _ _ _ Hti) in Hlen. cbn [length] in Hlen. lia.
    + intros ll' Hin. apply Hll. now right.
    + intros j t' Hj Ht'. apply (Ht (S j) t'); [cbn [length]; lia |].
      now replace (i + S j)%nat with (S i + j)%nat by lia.
Qed.

Lemma metrics_mean_returns (m : gmap string (list (@Num F))) :
  (∀ k l, m !! k = Some l → l ≠ []) →
  metrics_mean m = Ok (py_mean <$> m).
Proof.
  unfold metrics_mean.
  apply (map_fold_weak_ind
           (fun r m' => (∀ k l, m' !! k = Some l → l ≠ []) → r = Ok (py_mean <$> m'))).
  - intros _. now rewrite fmap_empty.
  - intros k l m' r Hk IH Hne.
    rewrite IH.
    + cbn [rbind]. unfold truediv_int.
      assert (Hl : (Z.of_nat (length l) =? 0) = false).
      { apply Z.eqb_neq. pose proof (Hne k l (lookup_insert_eq _ _ _)).
        destruct l; [congruence |]. cbn [length]. lia. }
      rewrite Hl. cbn [rbind]. now rewrite fmap_insert.
    + intros k' l' Hk'. apply (Hne k').
      rewrite lookup_insert_ne; [exact Hk' | congruence].
Qed.

Lemma vals_of_docs (texts : list string) (lls : list (list F)) :
  (length lls ≤ length texts)%nat →
  let kvs := concat (zip_with doc_metrics texts lls) in
  vals_of "nll" kvs = doc_nll <$> lls
  ∧ vals_of "nll_per_token" kvs = doc_nll_per_token <$> lls
  ∧ vals_of "nll_per_char" kvs = zip_with doc_nll_per_char texts lls
  ∧ vals_of "avg_seqlen" kvs = doc_seqlen <$> lls
  ∧ ∀ k, k ∉ ["nll"; "nll_per_token"; "nll_per_char"; "avg_seqlen"] →
      vals_of k kvs = [].
Proof.
  cbv zeta. revert texts. induction lls as [|ll lls IH]; intros texts Hlen.
  - rewrite !zip_with_nil_r. cbn. repeat split; reflexivity.
  - destruct texts as [|t texts]; [cbn in Hlen; lia |].
    cbn [zip_with concat]. rewrite !fmap_cons.
    destruct (IH texts) as (H1 & H2 & H3 & H4 & H5); [cbn in Hlen; lia |].
    split; [| split; [| split; [| split]]].
    + rewrite vals_of_app, H1. reflexivity.
    + rewrite vals_of_app, H2. reflexivity.
    + rewrite vals_of_app, H3. reflexivity.
    + rewrite vals_of_app, H4. reflexivity.
    + intros k Hk. rewrite vals_of_app, (H5 k Hk), app_nil_r.
      rewrite !not_elem_of_cons in Hk. destruct Hk as (Ha & Hb & Hc & Hd & _).
      cbn [doc_metrics vals_of].
      rewrite !(proj2 (String.eqb_neq _ _)) by congruence. reflexivity.
Qed.

(** X21.  For a source whose documents and log-likelihood tensors are all
    non-empty, with one tensor per document, each of the four metrics is
    the mean over the documents ([sum] divided by the count) of the
    per-document value: the summed log-likelihood, that sum per token, that
    sum per character of the text, and the number of tokens; the result is
    this mapping updated with what [dist_mean_dict] returns for it. *)
Theorem val_metrics_means (texts : list string) (lls : list (list F)) :
  lls ≠ [] →
  (length lls ≤ length texts)%nat →
  (∀ ll, ll ∈ lls → ll ≠ []) →
  (∀ j t, (j < length lls)%nat → texts !! j = Some t → t ≠ "") →
  ∃ avg,
    val_metrics dist_mean_dict texts lls = Ok (dist_mean_dict avg ∪ avg)
    ∧ avg !! "nll" = Some (py_mean (doc_nll <$> lls))
    ∧ avg !! "nll_per_token" = Some (py_mean (doc_nll_per_token <$> lls))
    ∧ avg !! "nll_per_char" = Some (py_mean (zip_with doc_nll_per_char texts lls))
    ∧ avg !! "avg_seqlen" = Some (py_mean (doc_seqlen <$> lls))
    ∧ ∀ k, is_Some (avg !! k) →
        k ∈ ["nll"; "nll_per_token"; "nll_per_char"; "avg_seqlen"].
Proof.
  intros Hne Hlen Hll Ht.
  destruct (vals_of_docs texts lls Hlen) as (H1 & H2 & H3 & H4 & H5).
  set (kvs := concat (zip_with doc_metrics texts lls)) in *.
  exists (py_mean <$> appends ∅ kvs).
  assert (Hloop : metrics_loop texts 0 lls ∅ = Ok (appends ∅ kvs)).
  { rewrite metrics_loop_returns; [reflexivity | now rewrite drop_0 | exact Hll | exact Ht]. }
  assert (Hmean : metrics_mean (appends ∅ kvs) = Ok (py_mean <$> appends ∅ kvs)).
  { apply metrics_mean_returns. intros k l. rewrite appends_lookup, lookup_empty.
    destruct (vals_of k kvs); [discriminate |].
    intros Hl. injection Hl as <-. discriminate. }
  destruct lls as [|ll lls]; [congruence |].
  destruct texts as [|t texts]; [cbn in Hlen; lia |].
  split; [unfold val_metrics; rewrite Hloop; cbn [rbind]; now rewrite Hmean |].
  repeat split.
  - now rewrite lookup_fmap, appends_lookup, H1.
  - now rewrite lookup_fmap, appends_lookup, H2.
  - now rewrite lookup_fmap, appends_lookup, H3.
  - now rewrite lookup_fmap, appends_lookup, H4.
  - intros k Hk.
    destruct (decide (k ∈ ["nll"; "nll_per_token"; "nll_per_char"; "avg_seqlen"]))
      as [Hin|Hin]; [exact Hin |].
    rewrite lookup_fmap, appends_lookup, (H5 k Hin), lookup_empty in Hk.
    now destruct Hk.
Qed.

(** X22.  A source for which [generate] returns no log-likelihood tensor
    gets the metrics that [dist_mean_dict] returns for the empty mapping:
    no mean is computed and nothing is divided by zero. *)
Theorem val_metrics_no_documents (texts : list string) :
  val_metrics dist_mean_dict texts [] = Ok (dist_mean_dict ∅ ∪ ∅).
Proof.
  unfold val_metrics. cbn [metrics_loop rbind].
  unfold metrics_mean. now rewrite map_fold_empty.
Qed.

Lemma metrics_loop_zero_division (texts : list string) (i : nat)
    (lls : list (list F)) (m : gmap string (list (@Num F))) (j : nat) (ll : list F) :
  (length lls ≤ length (drop i texts))%nat →
  lls !! j = Some ll →
  ll = [] ∨ texts !! (i + j)%nat = Some "" →
  metrics_loop texts i lls m = Raise ZeroDivisionError.
Proof.
  revert i m j. induction lls as [|ll0 lls IH]; intros i m j Hlen Hj Hbad;
    [discriminate |].
  cbn [metrics_loop]. unfold truediv_int at 1.
  destruct (Z.of_nat (length ll0) =? 0) eqn:Hz0; [reflexivity |].
  cbn [rbind].
  destruct (texts !! i) as [t|] eqn:Hti.
  2:{ apply lookup_ge_None in Hti. rewrite length_drop in Hlen.
      cbn [length] in Hlen. lia. }
  unfold truediv_int at 1.
  destruct (Z.of_nat (String.length t) =? 0) eqn:Hzt; [reflexivity |].
  cbn [rbind]. destruct j as [|j].
  - exfalso. cbn in Hj. injection Hj as ->. rewrite Nat.add_0_r, Hti in Hbad.
    destruct Hbad as [->|Ht]; [discriminate |]. injection Ht as ->. discriminate.
  - apply (IH (S i) _ j); [| exact Hj |].
    + rewrite (drop_S _ _ _ Hti) in Hlen. cbn [length] in Hlen. lia.
    + now replace (S i + j)%nat with (i + S j)%nat by lia.
Qed.

(** X23.  When a document has an empty text, or its log-likelihood tensor
    is empty, the per-character or per-token division raises
    [ZeroDivisionError]: no metrics are produced for the source. *)
Theorem val_metrics_zero_division (texts : list string) (lls : list (list F))
    (j : nat) (ll : list F) :
  (length lls ≤ length texts)%nat →
  lls !! j = Some ll →
  ll = [] ∨ texts !! j = Some "" →
  val_metrics dist_mean_dict texts lls = Raise ZeroDivisionError.
Proof.
  intros Hlen Hj Hbad. unfold val_metrics.
  rewrite (metrics_loop_zero_division texts 0 lls ∅ j ll);
    [reflexivity | now rewrite drop_0 | exact Hj | exact Hbad].
Qed.

Lemma metrics_loop_index_error (texts : list string) (i : nat)
    (lls : list (list F)) (m : gmap string (list (@Num F))) :
  (length (drop i texts) < length lls)%nat →
  (∀ ll, ll ∈ lls → ll ≠ []) →
  (∀ t, t ∈ texts → t ≠ "") →
  metrics_loop texts i lls m = Raise IndexError.
Proof.
  revert i m. induction lls as [|ll lls IH]; intros i m Hlen Hll Ht;
    [cbn in Hlen; lia |].
  cbn [metrics_loop]. unfold truediv_int at 1.
  assert (Hz : (Z.of_nat (length ll) =? 0) = false).
  { apply Z.eqb_neq. pose proof (Hll ll ltac:(left)). destruct ll; [congruence |].
    cbn [length]. lia. }
  rewrite Hz. cbn [rbind].
  destruct (texts !! i) as [t|] eqn:Hti; [| reflexivity].
  unfold truediv_int at 1.
  assert (Hzt : (Z.of_nat (String.length t) =? 0) = false).
  { apply Z.eqb_neq. pose proof (Ht t (list_elem_of_lookup_2 _ _ _ Hti)).
    destruct t; [congruence |]. cbn [String.length]. lia. }
  rewrite Hzt. cbn [rbind]. apply IH.
  - rewrite (drop_S _ _ _ Hti) in Hlen. cbn [length] in Hlen. lia.
  - intros ll' Hin. apply Hll. now right.
  - exact Ht.
Qed.

(** X24.  When [generate] returns more log-likelihood tensors than the
    source has documents (all of them non-empty), the lookup of the missing
    text raises [IndexError]. *)
Theorem val_metrics_index_error (texts : list string) (lls : list (list F)) :
  (length texts < length lls)%nat →
  (∀ ll, ll ∈ lls → ll ≠ []) →
  (∀ t, t ∈ texts → t ≠ "") →
  val_metrics dist_mean_dict texts lls = Raise IndexError.
Proof.
  intros Hlen Hll Ht. unfold val_metrics.
  rewrite metrics_loop_index_error; [reflexivity | now rewrite drop_0 | exact Hll | exact Ht].
Qed.

(** *** Source names *)

Lemma string_of_list_ascii_app (l1 l2 : list ascii) :
  string_of_list_ascii (l1 ++ l2)
  = string_of_list_ascii l1 +:+ string_of_list_ascii l2.
Proof.
  induction l1 as [|c l1 IH]; [reflexivity |].
  cbn [app string_of_list_ascii]. now rewrite append_cons_l, IH.
Qed.

Lemma ends_with_sep_inv (a : string) :
  ends_with_sep a = true → ∃ a0, a = a0 +:+ "/".
Proof.
  unfold ends_with_sep. destruct (rev (list_ascii_of_string a)) as [|c l] eqn:Hrev;
    [discriminate |].
  intros Hc. apply bool_decide_eq_true_1 in Hc. subst c.
  apply (f_equal (@rev ascii)) in Hrev. rewrite rev_involutive in Hrev.
  cbn [rev] in Hrev. exists (string_of_list_ascii (rev l)).
  rewrite <- (string_of_list_ascii_of_string a), Hrev.
  now rewrite string_of_list_ascii_app.
Qed.

Lemma append_assoc_sep (a b : string) :
  (a +:+ "/") +:+ b = a +:+ String "/" b.
Proof.
  induction a as [|c a IH]; [reflexivity |].
  now rewrite !append_cons_l, IH.
Qed.

Lemma basename_go_sep (acc a b : string) :
  basename_go acc (a +:+ String "/" b) = basename b.
Proof.
  revert acc. induction a as [|c a IH]; intros acc.
  - rewrite append_empty_l. cbn [basename_go].
    now rewrite bool_decide_eq_true_2 by reflexivity.
  - rewrite append_cons_l. cbn [basename_go]. case_bool_decide; apply IH.
Qed.

Lemma basename_path_join (a b : string) :
  basename (path_join a b) = basename b.
Proof.
  unfold path_join. destruct (String.prefix "/" b); [reflexivity |].
  destruct (bool_decide (a = "")) eqn:Ha; cbn [orb].
  - apply bool_decide_eq_true_1 in Ha. subst a. now rewrite append_empty_l.
  - destruct (ends_with_sep a) eqn:Hs.
    + destruct (ends_with_sep_inv a Hs) as [a0 ->].
      rewrite append_assoc_sep. apply basename_go_sep.
    + change (a +:+ "/" +:+ b) with (a +:+ String "/" b). apply basename_go_sep.
Qed.

(** X25.  The names under which [eval_on_val] stores the metrics come from
    the source names alone: joining a source with its root directory never
    changes its basename.  A validation source and a training source of
    the same name therefore share a basename, whatever their root
    directories. *)
Theorem val_srcs_basenames (val_args : ValidationArgs) (train_cfg : TrainArgs) :
  basename <$> val_srcs val_args train_cfg
  = basename <$> (val_sources val_args ++ data_sources (data train_cfg)).
Proof.
  unfold val_srcs. rewrite !fmap_app, <- !list_fmap_compose.
  f_equal; apply list_fmap_ext; intros i src _; apply basename_path_join.
Qed.

(** *** The driver *)

Local Abbreviation launch_eval_head' :=
  (launch_eval_head (Tokenizer:=Tokenizer) get_output_seq_len model_forward
     cross_entropy_sum boe_id find_and_sanitize_chunks create_iter CONSOLIDATE_FOLDER).
Local Abbreviation launch_eval' :=
  (launch_eval generate_fn get_output_seq_len model_forward cross_entropy_sum boe_id
     find_and_sanitize_chunks create_iter arrow_texts dist_mean_dict new_generator
     CONSOLIDATE_FOLDER).
Local Abbreviation dclm_ppl model train_cfg v :=
  (eval_ppl_on_path' model (data_tokenizer_args (data train_cfg))
     {| patching_mode := "byte" |} false
     "/checkpoint/amaia/explore/datasets/dclm_baseline_1.0/"
     8 100 (max_n_docs v) (Some "blt")).

(** The events of lines 298-320, which do not depend on the evaluation. *)
Lemma launch_eval_head_run (env : @Env Model Tokenizer)
    (eval_args : @EvalArgs GeneratorArgs) (tr : list (@Event F)) :
  let ckpt := ckpt_dir eval_args in
  let cp := model_path env CONSOLIDATE_FOLDER ckpt in
  let loaded := load_consolidated_model_and_tokenizer env cp in
  let tr1 :=
    tr ++ (if dist_is_initialized env then [] else [SetupTorchDistributed])
       ++ (if negb (is_consolidated env ckpt)
              && negb (fs_exists env (path_join ckpt CONSOLIDATE_FOLDER))
              && (get_global_rank env =? 0)
           then [ConsolidateCheckpoints ckpt] else [])
       ++ [Mkdirs (dump_dir eval_args);
           WriteConfig (path_join (dump_dir eval_args) "config.yaml");
           Barrier; LoadModel cp] in
  launch_eval_head' env eval_args tr
  = match validation eval_args with
    | None => (tr1, Ok loaded)
    | Some v =>
        match dclm_ppl loaded.1.1 loaded.2 v with
        | Ok r => (tr1 ++ [PrintResults r], Ok loaded)
        | Raise e => (tr1, Raise e)
        end
    end.
Proof.
  cbv zeta. unfold launch_eval_head, model_path, is_consolidated, bind, emit, ret, lift.
  destruct (dist_is_initialized env);
    destruct (fs_exists env (ckpt_dir eval_args)
              && fs_exists env (path_join (ckpt_dir eval_args) "params.json")
              && negb (bool_decide
                         (length (fs_glob env (path_join (ckpt_dir eval_args) "*.pth"))
                          = 0%nat)));
    cbn [negb andb];
    try (destruct (negb (fs_exists env (path_join (ckpt_dir eval_args) CONSOLIDATE_FOLDER))
                   && (get_global_rank env =? 0)));
    cbn [fst snd];
    match goal with
    | |- context [load_consolidated_model_and_tokenizer env ?cp] =>
        destruct (load_consolidated_model_and_tokenizer env cp)
          as [[model tokenizer] train_cfg]
    end;
    cbn [fst snd];
    (destruct (validation eval_args) as [v|]; cbn [fst snd];
     [destruct (eval_ppl_on_path _ _ _ _ _ _ _ _ _ _ _ _ _ _ _); cbn [fst snd] |]);
    rewrite <- ?app_assoc; cbn [app]; rewrite ?app_nil_r; reflexivity.
Qed.

Lemma launch_eval_run (env : @Env Model Tokenizer)
    (eval_args : @EvalArgs GeneratorArgs) (tr : list (@Event F)) :
  let ckpt := ckpt_dir eval_args in
  let cp := model_path env CONSOLIDATE_FOLDER ckpt in
  let loaded := load_consolidated_model_and_tokenizer env cp in
  ∃ post e,
    launch_eval' env eval_args tr
    = (tr ++ (if dist_is_initialized env then [] else [SetupTorchDistributed])
          ++ (if negb (is_consolidated env ckpt)
                 && negb (fs_exists env (path_join ckpt CONSOLIDATE_FOLDER))
                 && (get_global_rank env =? 0)
              then [ConsolidateCheckpoints ckpt] else [])
          ++ [Mkdirs (dump_dir eval_args);
              WriteConfig (path_join (dump_dir eval_args) "config.yaml");
              Barrier; LoadModel cp]
          ++ post, Raise e)
    ∧ match validation eval_args with
      | None => post = [] ∧ e = NameError
      | Some v =>
          match dclm_ppl loaded.1.1 loaded.2 v with
          | Ok r => post = [PrintResults r] ∧ e = NameError
          | Raise e' => post = [] ∧ e = e'
          end
      end.
Proof.
  cbv zeta. unfold launch_eval, bind at 1.
  pose proof (launch_eval_head_run env eval_args tr) as Hhead. cbv zeta in Hhead.
  rewrite Hhead. clear Hhead.
  destruct (load_consolidated_model_and_tokenizer env _) as [[model tokenizer] train_cfg].
  cbn [fst snd].
  destruct (validation eval_args) as [v|].
  - destruct (eval_ppl_on_path _ _ _ _ _ _ _ _ _ _ _ _ _ _ _) as [r|e'].
    + exists [PrintResults r], NameError. split; [| now split].
      unfold bind, raise. cbn [fst snd]. now rewrite <- !app_assoc.
    + exists [], e'. split; [| now split]. now rewrite !app_nil_r.
  - exists [], NameError. split; [| now split].
    unfold bind, raise. cbn [fst snd]. now rewrite !app_nil_r.
Qed.

(** X26.  On every run, although it aborts, [launch_eval] creates the dump
    directory, writes [config.yaml] into it, passes the barrier and loads
    the model, once each and in this order.  Before them come at most the
    distributed setup and one consolidation of the checkpoint directory;
    after them only the printing of the perplexity results. *)
Theorem launch_eval_writes_config_then_loads (env : @Env Model Tokenizer)
    (eval_args : @EvalArgs GeneratorArgs) (tr : list (@Event F)) :
  ∃ pre post e,
    launch_eval' env eval_args tr
    = (tr ++ pre
          ++ [Mkdirs (dump_dir eval_args);
              WriteConfig (path_join (dump_dir eval_args) "config.yaml");
              Barrier;
              LoadModel (model_path env CONSOLIDATE_FOLDER (ckpt_dir eval_args))]
          ++ post, Raise e)
    ∧ pre `sublist_of` [SetupTorchDistributed; ConsolidateCheckpoints (ckpt_dir eval_args)]
    ∧ Forall (fun ev => ∃ r, ev = PrintResults r) post.
Proof.
  destruct (launch_eval_run env eval_args tr) as (post & e & Hrun & Hpost).
  cbv zeta in Hrun, Hpost.
  exists ((if dist_is_initialized env then [] else [SetupTorchDistributed])
          ++ (if negb (is_consolidated env (ckpt_dir eval_args))
                 && negb (fs_exists env (path_join (ckpt_dir eval_args) CONSOLIDATE_FOLDER))
                 && (get_global_rank env =? 0)
              then [ConsolidateCheckpoints (ckpt_dir eval_args)] else [])),
    post, e.
  split; [now rewrite Hrun, <- !app_assoc |]. split.
  - destruct (dist_is_initialized env); destruct (_ && _ && _); cbn [app];
      repeat first [apply sublist_nil | apply sublist_skip; [] | apply sublist_cons].
  - destruct (validation eval_args) as [v|].
    + destruct (eval_ppl_on_path _ _ _ _ _ _ _ _ _ _ _ _ _ _ _) as [r|e'];
        destruct Hpost as [-> _]; repeat constructor. now exists r.
    + destruct Hpost as [-> _]. constructor.
Qed.

(** X27.  [launch_eval] consolidates the checkpoint directory exactly when
    that directory holds no consolidated checkpoint, the consolidation
    folder under it does not exist and the process has global rank 0; it
    consolidates no other directory.  On any other rank a missing folder is
    not created. *)
Theorem launch_eval_consolidates (env : @Env Model Tokenizer)
    (eval_args : @EvalArgs GeneratorArgs) (d : string) :
  ConsolidateCheckpoints d ∈ (launch_eval' env eval_args []).1
  ↔ d = ckpt_dir eval_args
    ∧ is_consolidated env (ckpt_dir eval_args) = false
    ∧ fs_exists env (path_join (ckpt_dir eval_args) CONSOLIDATE_FOLDER) = false
    ∧ get_global_rank env = 0.
Proof.
  destruct (launch_eval_run env eval_args []) as (post & e & Hrun & Hpost).
  cbv zeta in Hrun, Hpost. rewrite Hrun. cbn [fst]. clear Hrun.
  assert (Hp : ConsolidateCheckpoints d ∉ post).
  { destruct (validation eval_args) as [v|].
    - destruct (eval_ppl_on_path _ _ _ _ _ _ _ _ _ _ _ _ _ _ _) as [r|e'];
        destruct Hpost as [-> _]; rewrite ?elem_of_cons, ?elem_of_nil;
        intuition discriminate.
    - destruct Hpost as [-> _]. apply not_elem_of_nil. }
  clear Hpost.
  destruct (is_consolidated env (ckpt_dir eval_args));
    destruct (fs_exists env (path_join (ckpt_dir eval_args) CONSOLIDATE_FOLDER));
    destruct (get_global_rank env =? 0) eqn:Hr;
    destruct (dist_is_initialized env);
    cbn [negb andb app];
    first [apply Z.eqb_eq in Hr | apply Z.eqb_neq in Hr];
    rewrite ?elem_of_app, ?elem_of_cons, ?elem_of_nil;
    (split;
     [intros Hin; intuition (first [discriminate | congruence])
     | intros (-> & ? & ? & ?); first [discriminate | lia | auto 10]]).
Qed.

(** X28.  With a validation section, the perplexity is evaluated on the
    hard-coded dataset path, with the tokenizer arguments of the loaded
    training configuration and byte patching; of the validation section
    only [max_n_docs] is read.  When that evaluation returns, its result is
    printed last and the run ends in [NameError]; when it raises, the same
    exception leaves [launch_eval] and nothing is printed. *)
Theorem launch_eval_perplexity (env : @Env Model Tokenizer)
    (eval_args : @EvalArgs GeneratorArgs) (tr : list (@Event F))
    (v : ValidationArgs) :
  validation eval_args = Some v →
  let loaded :=
    load_consolidated_model_and_tokenizer env
      (model_path env CONSOLIDATE_FOLDER (ckpt_dir eval_args)) in
  ∃ evs,
    (launch_eval' env eval_args tr).1 = tr ++ evs
    ∧ match dclm_ppl loaded.1.1 loaded.2 v with
      | Ok r =>
          (launch_eval' env eval_args tr).2 = Raise NameError
          ∧ last evs = Some (PrintResults r)
      | Raise e =>
          (launch_eval' env eval_args tr).2 = Raise e
          ∧ ∀ r, PrintResults r ∉ evs
      end.
Proof.
  intros Hv. cbv zeta.
  destruct (launch_eval_run env eval_args tr) as (post & e & Hrun & Hpost).
  cbv zeta in Hrun, Hpost. rewrite Hrun, Hv in *. cbn [fst snd]. clear Hrun.
  destruct (eval_ppl_on_path _ _ _ _ _ _ _ _ _ _ _ _ _ _ _) as [r|e'];
    destruct Hpost as [-> ->].
  - eexists. split; [reflexivity |]. split; [reflexivity |].
    rewrite !app_assoc. apply last_snoc.
  - eexists. split; [reflexivity |]. split; [reflexivity |]. intros r.
    destruct (dist_is_initialized env); destruct (_ && _ && _);
      rewrite ?elem_of_app, ?elem_of_cons, ?elem_of_nil; intuition discriminate.
Qed.

End DriverExtra.

(** ** Worked examples for the further properties *)

Import MoreExamples.

Lemma generate_until_only_deletes_witness :
  ∃ outs,
    (generate_until (H:=ZFloat) lines_generate [("p", stop_nl); ("q", stop_nl)] world256).2
    = Ok outs
    ∧ ∀ i out, outs !! i = Some out →
        ∃ g, [raw; raw] !! i = Some g
          ∧ chars out `sublist_of` chars g
          ∧ (String.length out ≤ String.length g)%nat.
Proof.
  apply (generate_until_only_deletes (H:=ZFloat) lines_generate
           [("p", stop_nl); ("q", stop_nl)] world256 [nl] [raw; raw]
           [[-1; -2; -3]; [-1; -2; -3]] [[true; false; true]; [true; false; true]]).
  - discriminate.
  - vm_compute. reflexivity.
  - vm_compute. reflexivity.
  - reflexivity.
Defined.

Lemma generate_until_removes_stop_chars_witness :
  ∃ outs,
    (generate_until (H:=ZFloat) lines_generate [("p", stop_nl); ("q", stop_nl)] world256).2
    = Ok outs
    ∧ ∀ c out, String c EmptyString ∈ [nl] → out ∈ outs → c ∉ chars out.
Proof.
  apply (generate_until_removes_stop_chars (H:=ZFloat) lines_generate
           [("p", stop_nl); ("q", stop_nl)] world256 [nl] [raw; raw]
           [[-1; -2; -3]; [-1; -2; -3]] [[true; false; true]; [true; false; true]]).
  - discriminate.
  - vm_compute. reflexivity.
  - vm_compute. reflexivity.
  - reflexivity.
Defined.

Lemma generate_until_str_until_witness :
  ∃ outs,
    (generate_until (H:=ZFloat) lines_generate [("p", stop_is_str)] world256).2 = Ok outs
    ∧ length outs = length [raw]
    ∧ ∀ c out, c ∈ chars "bc" → out ∈ outs → c ∉ chars out.
Proof.
  apply (generate_until_str_until (H:=ZFloat) lines_generate [("p", stop_is_str)]
           world256 "bc" [raw] [[-1; -2; -3]] [[true; false; true]]).
  - discriminate.
  - vm_compute. reflexivity.
  - vm_compute. reflexivity.
  - reflexivity.
Defined.

Lemma generate_until_keeps_clean_witness :
  ∃ outs,
    (generate_until (H:=ZFloat) echo_generate [("hello", stop_nl)] world256).2 = Ok outs
    ∧ ∀ i g, ["hello"] !! i = Some g → (∀ e, e ∈ [nl] → ¬ occurs e g) →
        outs !! i = Some g.
Proof.
  apply (generate_until_keeps_clean (H:=ZFloat) echo_generate [("hello", stop_nl)]
           world256 [nl] ["hello"] [[-1; -2; -3]] [[true; false; true]]).
  - discriminate.
  - vm_compute. reflexivity.
  - vm_compute. reflexivity.
  - reflexivity.
Defined.

Lemma generate_until_shortens_witness :
  ∃ outs,
    (generate_until (H:=ZFloat) lines_generate [("p", stop_nl)] world256).2 = Ok outs
    ∧ ∀ i g, [raw] !! i = Some g → occurs nl g →
        ∃ out, outs !! i = Some out
          ∧ (String.length out < String.length g)%nat.
Proof.
  apply (generate_until_shortens (H:=ZFloat) lines_generate [("p", stop_nl)] world256
           "010"%char "" [] [raw] [[-1; -2; -3]] [[true; false; true]]).
  - discriminate.
  - vm_compute. reflexivity.
  - vm_compute. reflexivity.
  - reflexivity.
Defined.

Lemma generate_until_until_not_iterable_witness :
  let run := generate_until (H:=ZFloat) lines_generate [("p", stop_is_none)] world256 in
  length (calls run.1) = S (length (calls world256))
  ∧ ([raw] ≠ [] → run.2 = Raise TypeError)
  ∧ ([raw] = [] → run.2 = Ok []).
Proof.
  apply (generate_until_until_not_iterable (H:=ZFloat) lines_generate
           [("p", stop_is_none)] world256 [raw] [[-1; -2; -3]] [[true; false; true]]).
  - discriminate.
  - vm_compute. reflexivity.
  - intros l. vm_compute. discriminate.
  - intros s. vm_compute. discriminate.
  - reflexivity.
Defined.

Lemma all_dicts_same_order_free_witness :
  all_dicts_same (H:=ZFloat) [stop_nl; stop_none]
  = all_dicts_same (H:=ZFloat) [stop_none; stop_nl; stop_nl].
Proof.
  apply (all_dicts_same_order_free (H:=ZFloat)).
  intros d. rewrite !elem_of_cons, !elem_of_nil. tauto.
Defined.

Lemma loglikelihood_truncates_witness :
  (∃ results,
     (loglikelihood (H:=ZFloat) one_generate byte_encode
        [("a", "bc"); ("ab", "c")] world256).2 = Ok results
     ∧ length results
       = Nat.min (length [("a", "bc"); ("ab", "c")])
           (Nat.min (length [[-1; -2; -3]]) (length [[true; false; true]])))
  ∧ (∃ results,
       (loglikelihood_rolling (H:=ZFloat) one_generate ["abc"; "de"] world256).2
       = Ok results
       ∧ length results = length [[-1; -2; -3]]).
Proof.
  apply (loglikelihood_truncates (H:=ZFloat) one_generate byte_encode
           [("a", "bc"); ("ab", "c")] ["abc"; "de"] world256
           ["x"] ["x"] [[-1; -2; -3]] [[-1; -2; -3]]
           [[true; false; true]] [[true; false; true]]).
  - discriminate.
  - reflexivity.
  - reflexivity.
Defined.

Lemma loglikelihood_context_covers_sequence_witness :
  ∃ results,
    (loglikelihood (H:=ZFloat) lines_generate byte_encode [("abcd", "e")] world256).2
    = Ok results
    ∧ results !! 0%nat
      = Some (PyTuple [PyFloat (tsum (FloatOps:=ZFloat) []); PyBool true]).
Proof.
  apply (loglikelihood_context_covers_sequence (H:=ZFloat) lines_generate byte_encode
           [("abcd", "e")] world256 [raw] [[-1; -2; -3]] [[true; false; true]]
           0 "abcd" "e" [-1; -2; -3] [true; false; true]).
  - reflexivity.
  - reflexivity.
  - reflexivity.
  - reflexivity.
  - vm_compute. lia.
  - vm_compute. lia.
Defined.

Lemma eval_ppl_on_path_empty_stream_witness :
  eval_ppl_on_path (H:=ZFloat) seq_len8 forward count_loss boe1 one_chunk no_batches
    tt sp_args byte_patcher false "/d" 8 100 None None
  = Ok {| n_bytes := 0; loss_sum := 0; ppl := 0 |}.
Proof.
  apply (eval_ppl_on_path_empty_stream (H:=ZFloat) seq_len8 forward count_loss boe1
           one_chunk no_batches tt sp_args byte_patcher false "/d" 8 100 None None
           "/d/shard.chunk.00.val.jsonl").
  - reflexivity.
  - reflexivity.
Defined.

Lemma eval_ppl_on_path_all_masked_witness :
  eval_ppl_on_path (H:=ZFloat) seq_len8 forward count_loss boe1 one_chunk masked_batches
    tt bytes_args byte_patcher false "/d" 8 100 None None
  = Ok {| n_bytes := 0; loss_sum := 2; ppl := 0 |}.
Proof.
  apply (eval_ppl_on_path_all_masked (H:=ZFloat) seq_len8 forward count_loss boe1
           one_chunk masked_batches tt bytes_args byte_patcher false "/d" 8 100 None None
           "/d/shard.chunk.00.val.jsonl").
  - compute_done.
  - reflexivity.
  - intros b Hb. apply list_elem_of_singleton in Hb. subst b.
    exists [[false; false]]. split; [reflexivity |].
    intros row x Hrow Hx. apply list_elem_of_singleton in Hrow. subst row.
    rewrite !elem_of_cons, elem_of_nil in Hx. tauto.
Defined.

Lemma eval_ppl_on_path_overflow_witness :
  eval_ppl_on_path (H:=ZFloat) seq_len8 forward huge_loss boe1 one_chunk two_batches
    tt bytes_args byte_patcher false "/d" 8 100 None None
  = Raise OverflowError.
Proof.
  apply (eval_ppl_on_path_overflow (H:=ZFloat) seq_len8 forward huge_loss boe1
           one_chunk two_batches tt bytes_args byte_patcher false "/d" 8 100 None None
           "/d/shard.chunk.00.val.jsonl").
  - compute_done.
  - reflexivity.
  - reflexivity.
  - reflexivity.
Defined.

Lemma val_metrics_means_witness :
  ∃ avg,
    val_metrics (H:=ZFloat) single_rank ["ab"; "cde"] [[-1; -3]; [-3; -4; -5]]
    = Ok (single_rank avg ∪ avg)
    ∧ avg !! "nll" = Some (NFloat (-8))
    ∧ avg !! "nll_per_token" = Some (NFloat (-3))
    ∧ avg !! "nll_per_char" = Some (NFloat (-3))
    ∧ avg !! "avg_seqlen" = Some (NFloat 2)
    ∧ ∀ k, is_Some (avg !! k) →
        k ∈ ["nll"; "nll_per_token"; "nll_per_char"; "avg_seqlen"].
Proof.
  apply (val_metrics_means (H:=ZFloat) single_rank ["ab"; "cde"]
           [[-1; -3]; [-3; -4; -5]]).
  - discriminate.
  - cbn [length]. lia.
  - intros ll Hll. rewrite !elem_of_cons, elem_of_nil in Hll.
    destruct Hll as [->|[->|[]]]; discriminate.
  - intros [|[|j]] t _ Ht; [injection Ht as <-; discriminate ..| discriminate Ht].
Defined.

Lemma val_metrics_zero_division_witness :
  val_metrics (H:=ZFloat) single_rank ["ab"; ""] [[-1; -2]; [-3]]
  = Raise ZeroDivisionError.
Proof.
  apply (val_metrics_zero_division (H:=ZFloat) single_rank ["ab"; ""]
           [[-1; -2]; [-3]] 1 [-3]).
  - cbn [length]. lia.
  - reflexivity.
  - right. reflexivity.
Defined.

Lemma val_metrics_index_error_witness :
  val_metrics (H:=ZFloat) single_rank ["ab"] [[-1]; [-2]] = Raise IndexError.
Proof.
  apply (val_metrics_index_error (H:=ZFloat) single_rank ["ab"] [[-1]; [-2]]).
  - cbn [length]. lia.
  - intros ll Hll. rewrite !elem_of_cons, elem_of_nil in Hll.
    destruct Hll as [->|[->|[]]]; discriminate.
  - intros t Ht. apply list_elem_of_singleton in Ht. subst t. discriminate.
Defined.

Lemma launch_eval_perplexity_witness :
  let run :=
    launch_eval (H:=ZFloat) (Logits:=list (list Z)) length_generate seq_len8 forward
      count_loss boe1 one_chunk two_batches chunk_texts single_rank make_generator
      "consolidated" ckpt_env val_eval_args [] in
  ∃ evs,
    run.1 = [] ++ evs
    ∧ run.2 = Raise NameError
    ∧ last evs = Some (PrintResults {| n_bytes := 5; loss_sum := 6; ppl := 2 |}).
Proof.
  exact (launch_eval_perplexity (H:=ZFloat) (Logits:=list (list Z)) length_generate
           seq_len8 forward count_loss boe1 one_chunk two_batches chunk_texts
           single_rank make_generator "consolidated" ckpt_env val_eval_args []
           two_vals eq_refl).
Defined.

Lemma eval_on_val_restores_witness :
  generator (eval_on_val (H:=ZFloat) length_generate one_chunk chunk_texts single_rank
               two_vals no_train_sources world256).1 = gen256
  ∧ generator (eval_on_val (H:=ZFloat) failing_generate one_chunk chunk_texts single_rank
                 two_vals no_train_sources world256).1 = set_max_gen_len 1 gen256.
Proof.
  split.
  - eapply (proj1 (eval_on_val_restores (H:=ZFloat) length_generate one_chunk chunk_texts
                     single_rank two_vals no_train_sources world256)
              _ (match (eval_on_val (H:=ZFloat) length_generate one_chunk chunk_texts
                          single_rank two_vals no_train_sources world256).2 with
                 | Ok r => r
                 | Raise _ => ∅
                 end)).
    vm_compute. reflexivity.
  - eapply (proj2 (eval_on_val_restores (H:=ZFloat) failing_generate one_chunk chunk_texts
                     single_rank two_vals no_train_sources world256)
              _ (RuntimeError "CUDA out of memory")).
    + intros q _. reflexivity.
    + vm_compute. reflexivity.
Defined.

Lemma eval_on_val_one_call_per_path_witness :
  let run :=
    eval_on_val (H:=ZFloat) length_generate one_chunk chunk_texts single_rank
      dup_vals no_train_sources world256 in
  val_srcs dup_vals no_train_sources
  = ["/data/a/val.jsonl"; "/data/b/x.jsonl"; "/data/a/val.jsonl"]
  ∧ calls run.1
    = [ {| call_config := set_max_gen_len 1 gen256;
           call_inputs := ["/data/a/val.jsonl/shard.chunk.00.val.jsonl"] |};
        {| call_config := set_max_gen_len 1 gen256;
           call_inputs := ["/data/b/x.jsonl/shard.chunk.00.val.jsonl"] |} ].
Proof.
  cbv zeta. split; [reflexivity |].
  exact (proj1 (eval_on_val_one_call_per_path (H:=ZFloat) length_generate one_chunk
                  chunk_texts single_rank dup_vals no_train_sources world256
                  (eval_on_val (H:=ZFloat) length_generate one_chunk chunk_texts
                     single_rank dup_vals no_train_sources world256).1
                  (match (eval_on_val (H:=ZFloat) length_generate one_chunk chunk_texts
                            single_rank dup_vals no_train_sources world256).2 with
                   | Ok r => r
                   | Raise _ => ∅
                   end)
                  eq_refl)).
Defined.

Lemma eval_on_val_distinct_basenames_witness :
  let run :=
    eval_on_val (H:=ZFloat) length_generate one_chunk chunk_texts single_rank
      distinct_vals no_train_sources world256 in
  let res := match run.2 with Ok r => r | Raise _ => ∅ end in
  (∀ p, p ∈ val_srcs distinct_vals no_train_sources →
     ∃ m, source_result (H:=ZFloat) length_generate chunk_texts single_rank
            (set_max_gen_len 1 gen256)
            (val_iterator no_train_sources (p +:+ "/shard.chunk.00.val.jsonl")) = Ok m
       ∧ res !! basename p = Some m)
  ∧ (∀ k, is_Some (res !! k) ↔ k ∈ basename <$> val_srcs distinct_vals no_train_sources).
Proof.
  cbv zeta.
  eapply (eval_on_val_distinct_basenames (H:=ZFloat) length_generate one_chunk chunk_texts
            single_rank distinct_vals no_train_sources world256).
  - compute_done.
  - vm_compute. reflexivity.
Defined.

Lemma eval_on_val_keys_witness :
  ∃ p, p ∈ val_srcs two_vals no_train_sources
    ∧ ("val.jsonl_1" = basename p ∨ "val.jsonl_1" = basename p +:+ "_1").
Proof.
  eapply (eval_on_val_keys (H:=ZFloat) length_generate one_chunk chunk_texts single_rank
            two_vals no_train_sources world256 _
            (match (eval_on_val (H:=ZFloat) length_generate one_chunk chunk_texts
                      single_rank two_vals no_train_sources world256).2 with
             | Ok r => r
             | Raise _ => ∅
             end)).
  - vm_compute. reflexivity.
  - vm_compute. eexists. reflexivity.
Defined.

Lemma eval_on_val_last_duplicate_wins_witness :
  let run :=
    eval_on_val (H:=ZFloat) length_generate one_chunk chunk_texts single_rank
      three_vals no_train_sources world256 in
  let res := match run.2 with Ok r => r | Raise _ => ∅ end in
  let metrics_of path :=
    source_result (H:=ZFloat) length_generate chunk_texts single_rank
      (set_max_gen_len 1 gen256)
      (val_iterator no_train_sources (path +:+ "/shard.chunk.00.val.jsonl")) in
  ∃ m1 ml,
    metrics_of "/data/a/val.jsonl" = Ok m1
    ∧ metrics_of "/data/c/val.jsonl" = Ok ml
    ∧ res !! "val.jsonl" = Some m1
    ∧ res !! ("val.jsonl" +:+ "_1") = Some ml.
Proof.
  cbv zeta.
  eapply (eval_on_val_last_duplicate_wins (H:=ZFloat) length_generate one_chunk
            chunk_texts single_rank three_vals no_train_sources world256 _ _
            [] ["/data/bb/val.jsonl"] [] "/data/a/val.jsonl" "/data/c/val.jsonl"
            "val.jsonl").
  - reflexivity.
  - compute_done.
  - reflexivity.
  - reflexivity.
  - intros q Hq. inversion Hq.
  - intros q Hq. apply list_elem_of_singleton in Hq. subst q. left. reflexivity.
  - vm_compute. reflexivity.
Defined.
